(** * video_frame_extractor.py: the extraction engine, embedded and verified

    The development follows [src/video_frame_extractor.py]:
    - [RectangleSelector], the mouse handlers   (lines 14-86),
    - [FrameExtractorThread.run]                (lines 104-176),
    - [VideoFrameExtractor.on_roi_selected]     (lines 373-410),
    - [VideoFrameExtractor.extract_frames] and the slots of the worker's
      signals                                   (lines 422-463).

    Numbers.  Python [int] values are [Z].  Python [float] values are
    modelled as exact rationals [Q]: [+], [*], [/], [<] and [min] are the
    exact operations, [int(x)] truncates toward zero.  Every concrete
    example below uses integers and dyadic rationals of a few bits, for
    which binary64 arithmetic is exact as well.

    Effects.  [run] talks to OpenCV, to the file system and to three Qt
    signals.  The calls are kept in a log of [effect]s, in program order;
    the answers of OpenCV and of the file system come from a [World]. *)

From Stdlib Require Import ZArith QArith Qround Qabs List String Ascii Bool.
From Stdlib Require Import DecimalString DecimalPos DecimalN Sorted Lia.
Import ListNotations.

Local Open Scope Z_scope.

(** ** Python numerics *)

Module Py.

(** [int(x)] for a float [x]: truncation toward zero. *)
Definition int (x : Q) : Z := Z.quot (Qnum x) (Zpos (Qden x)).

(** [x < y] on floats. *)
Definition ltb (x y : Q) : bool := negb (Qle_bool y x).

(** [min(a, b)] returns [a] unless [b < a]. *)
Definition min (a b : Q) : Q := if ltb b a then b else a.

(** [a // b] on integers: floor division. *)
Definition floordiv (a b : Z) : Z := a / b.

(** [seq[a:b]] with Python's treatment of negative and oversized bounds. *)
Definition slice_bound (len i : Z) : Z :=
  if i <? 0 then Z.max 0 (i + len) else Z.min i len.

Definition slice {A : Type} (a b : Z) (l : list A) : list A :=
  let len := Z.of_nat (List.length l) in
  let a' := slice_bound len a in
  let b' := slice_bound len b in
  firstn (Z.to_nat (b' - a')) (skipn (Z.to_nat a') l).

(** [str(n)] for an integer. *)
Definition str (n : Z) : string :=
  if n <? 0 then ("-" ++ NilZero.string_of_uint (N.to_uint (Z.to_N (- n))))%string
  else NilZero.string_of_uint (N.to_uint (Z.to_N n)).

Fixpoint zeros (n : nat) : string :=
  match n with
  | O => EmptyString
  | S n' => String "0" (zeros n')
  end.

(** [f"{n:06d}"]: the sign, then the digits padded with zeros on the left
    up to a total width of 6. *)
Definition format_06d (n : Z) : string :=
  let sign := if n <? 0 then "-"%string else EmptyString in
  let digits := NilZero.string_of_uint (N.to_uint (Z.to_N (Z.abs n))) in
  (sign ++ zeros (6 - String.length sign - String.length digits) ++ digits)%string.

(** Round to the nearest integer, halves to the even neighbour. *)
Definition round_half_even (x : Q) : Z :=
  let f := Qfloor x in
  let r := (x - inject_Z f)%Q in
  if ltb r (1 # 2) then f
  else if ltb (1 # 2) r then f + 1
  else if Z.even f then f else f + 1.

(** [f"{x:.2f}"]. *)
Definition format_2f (x : Q) : string :=
  let sign := if ltb x 0 then "-"%string else EmptyString in
  let h := round_half_even (Qabs x * 100) in
  let frac := str (h mod 100) in
  (sign ++ str (h / 100) ++ "." ++ zeros (2 - String.length frac) ++ frac)%string.

(** [os.path.join(a, b)] (posixpath). *)
Definition ends_with_sep (s : string) : bool :=
  match String.length s with
  | O => false
  | S n => match String.get n s with
           | Some c => Ascii.eqb c "/"
           | None => false
           end
  end.

Definition starts_with_sep (s : string) : bool :=
  match s with
  | String c _ => Ascii.eqb c "/"
  | EmptyString => false
  end.

Definition os_path_join (a b : string) : string :=
  if starts_with_sep b then b
  else if orb (String.eqb a EmptyString) (ends_with_sep a) then (a ++ b)%string
  else (a ++ "/" ++ b)%string.

End Py.

(** ** numpy *)

Module Np.

(** [np.linspace(start, stop, num, dtype=int)] with [endpoint=True]:
    [step = (stop - start) / (num - 1)], sample [i] is [i * step + start],
    the last sample is overwritten with [stop], and the samples are cast to
    integers with [floor].  With [num = 1] the only sample is [start]; with
    [num = 0] the array is empty. *)
Definition sample (start stop : Z) (div : Z) (i : Z) : Z :=
  Qfloor (inject_Z i * (inject_Z (stop - start) / inject_Z div) + inject_Z start).

Definition linspace (start stop : Z) (num : Z) : list Z :=
  match Z.to_nat num with
  | O => []
  | S O => [start]
  | S (S n) =>
      map (fun i => sample start stop (num - 1) (Z.of_nat i)) (seq 0 (S n))
      ++ [stop]
  end.

End Np.

(** ** Frames *)

(** A decoded frame is an array of shape [(height, width, 3)]: a list of
    rows of BGR pixels. *)
Definition pixel : Type := (Z * Z * Z)%type.
Definition frame : Type := list (list pixel).

(** [frame.size]: the number of array elements. *)
Definition frame_size (f : frame) : Z := 3 * Z.of_nat (List.length (List.concat f)).

(** [frame[y0:y1, x0:x1]]. *)
Definition frame_slice (y0 y1 x0 x1 : Z) (f : frame) : frame :=
  map (Py.slice x0 x1) (Py.slice y0 y1 f).

(** [frame.shape[:2] == (h, w)]. *)
Definition has_shape (f : frame) (h w : Z) : Prop :=
  Z.of_nat (List.length f) = h /\ Forall (fun row => Z.of_nat (List.length row) = w) f.

(** A region of interest [(x, y, width, height)]. *)
Definition ROI : Type := (Z * Z * Z * Z)%type.

(** ** The sampling window (run, lines 136-144) *)

Section Window.

Variable fps : Q.                 (* cap.get(CAP_PROP_FPS) *)
Variable total_frames : Z.        (* int(cap.get(CAP_PROP_FRAME_COUNT)) *)
Variable frame_interval : Q.      (* line 128 *)
Variable frames_per_second : Z.   (* the job's density *)

Definition start_frame (current_time : Q) : Z :=
  Py.int (current_time * fps).

Definition end_frame (current_time : Q) : Z :=
  Py.int (Py.min ((current_time + frame_interval) * fps) (inject_Z total_frames)).

Definition frames_in_interval (current_time : Q) : Q :=
  Py.min (inject_Z frames_per_second * frame_interval)
         (inject_Z (end_frame current_time - start_frame current_time)).

Definition frame_indices (current_time : Q) : list Z :=
  if Py.ltb 0 (frames_in_interval current_time) then
    Np.linspace (start_frame current_time) (end_frame current_time - 1)
                (Py.int (frames_in_interval current_time))
  else if start_frame current_time <? total_frames then [start_frame current_time]
  else [].

End Window.

(** ** ROI clamping (run, lines 118-126) and cropping (lines 153-154) *)

Definition clamp_roi (roi : option ROI) (video_width video_height : Z) : ROI :=
  match roi with
  | Some (roi_x, roi_y, roi_w, roi_h) =>
      let roi_x := Z.max 0 (Z.min roi_x (video_width - 1)) in
      let roi_y := Z.max 0 (Z.min roi_y (video_height - 1)) in
      let roi_w := Z.min roi_w (video_width - roi_x) in
      let roi_h := Z.min roi_h (video_height - roi_y) in
      (roi_x, roi_y, roi_w, roi_h)
  | None => (0, 0, video_width, video_height)
  end.

Definition is_some {A : Type} (o : option A) : bool :=
  match o with Some _ => true | None => false end.

Definition apply_roi (roi : option ROI) (clamped : ROI) (f : frame) : frame :=
  let '(roi_x, roi_y, roi_w, roi_h) := clamped in
  if is_some roi && (0 <? roi_w) && (0 <? roi_h)
  then frame_slice roi_y (roi_y + roi_h) roi_x (roi_x + roi_w) f
  else f.

(** The cropper of one frame, as [run] does it: clamp against the video's
    dimensions, slice when the clamped ROI has positive width and height. *)
Definition crop (f : frame) (video_width video_height : Z) (roi : option ROI) : frame :=
  apply_roi roi (clamp_roi roi video_width video_height) f.

(** ** The worker's effects *)

(** What [run] does to the outside, in program order. *)
Inductive effect : Type :=
| E_makedirs (path : string)                    (* os.makedirs(path, exist_ok=True) *)
| E_read (idx : Z)                              (* cap.set(POS_FRAMES, idx); cap.read() *)
| E_imwrite (path : string) (img : frame) (ok : bool)  (* cv2.imwrite and its return value *)
| E_progress (percent : Z)                      (* self.progress.emit *)
| E_finished (frame_count : Z)                  (* self.finished.emit *)
| E_error (msg : string)                        (* self.error.emit *)
| E_release.                                    (* cap.release() *)

(** The answer of an external call: a value, or a raised exception with
    its [str(e)]. *)
Inductive answer (A : Type) : Type :=
| Ok (a : A)
| Exc (msg : string).
Arguments Ok {A} a.
Arguments Exc {A} msg.

(** The capture object returned by [cv2.VideoCapture(path)]. *)
Record VideoCapture : Type := {
  isOpened : bool;
  CAP_PROP_FPS : Q;
  CAP_PROP_FRAME_COUNT : Z;     (* after int() *)
  CAP_PROP_FRAME_WIDTH : Z;     (* after int() *)
  CAP_PROP_FRAME_HEIGHT : Z;    (* after int() *)
  (** [cap.set(POS_FRAMES, idx); ret, frame = cap.read()]: [None] is
      [ret == False]. *)
  read : Z -> answer (option frame)
}.

Record World : Type := {
  cv2_VideoCapture : string -> VideoCapture;
  os_makedirs : string -> answer unit;
  cv2_imwrite : string -> frame -> answer bool
}.

(** How a computation ends: normally, by a raised exception, or because
    the loop budget of the model is used up. *)
Inductive outcome (A : Type) : Type :=
| Done (a : A)
| Raised (msg : string)
| OutOfFuel.
Arguments Done {A} a.
Arguments Raised {A} msg.
Arguments OutOfFuel {A}.

(** The worker monad: the effects so far and the outcome. *)
Definition W (A : Type) : Type := (list effect * outcome A)%type.

Definition ret {A : Type} (a : A) : W A := ([], Done a).

Definition bind {A B : Type} (m : W A) (k : A -> W B) : W B :=
  match m with
  | (l, Done a) => let (l', r) := k a in (l ++ l', r)
  | (l, Raised msg) => (l, Raised msg)
  | (l, OutOfFuel) => (l, OutOfFuel)
  end.

Notation "x <- m ;; k" := (bind m (fun x => k))
  (at level 61, m at next level, right associativity).
Notation "m ;;; k" := (bind m (fun _ => k))
  (at level 61, right associativity).

Definition emit (e : effect) : W unit := ([e], Done tt).

Definition call {A : Type} (log : A -> list effect) (a : answer A) : W A :=
  match a with
  | Ok v => (log v, Done v)
  | Exc msg => ([], Raised msg)
  end.

(** [try: m  except Exception as e: h(str(e))]. *)
Definition try_except {A : Type} (m : W A) (h : string -> W A) : W A :=
  match m with
  | (l, Raised msg) => let (l', r) := h msg in (l ++ l', r)
  | other => other
  end.

(** ** FrameExtractorThread *)

Record FrameExtractorThread : Type := {
  video_path : string;
  output_dir : string;
  interval_seconds : Q;
  frames_per_second : Z;
  roi : option ROI
}.

(** Line 159. *)
Definition frame_filename (frame_count : Z) (timestamp : Q) : string :=
  ("frame_" ++ Py.format_06d frame_count ++ "_t" ++ Py.format_2f timestamp ++ "s.jpg")%string.

Section Run.

Variable world : World.
Variable self : FrameExtractorThread.

(** Line 106. *)
Definition cap : VideoCapture := cv2_VideoCapture world (video_path self).

(** Lines 111-115. *)
Definition fps : Q := CAP_PROP_FPS cap.
Definition total_frames : Z := CAP_PROP_FRAME_COUNT cap.
Definition video_duration : Q :=
  if Py.ltb 0 fps then (inject_Z total_frames / fps)%Q else 0%Q.
Definition video_width : Z := CAP_PROP_FRAME_WIDTH cap.
Definition video_height : Z := CAP_PROP_FRAME_HEIGHT cap.

(** Line 128. *)
Definition frame_interval : Q :=
  if Py.ltb 0 (interval_seconds self) then interval_seconds self else video_duration.

(** Line 165-166: the value sent with the progress signal. *)
Definition progress_percent (current_time : Q) : Z :=
  let progress :=
    if Py.ltb 0 video_duration then Py.int ((current_time / video_duration) * 100)
    else 0 in
  Z.min progress 100.

Definition cap_read (idx : Z) : W (option frame) :=
  emit (E_read idx) ;;; call (fun _ => []) (read cap idx).

Definition imwrite (path : string) (img : frame) : W bool :=
  call (fun ok => [E_imwrite path img ok]) (cv2_imwrite world path img).

(** The frame that is written for a decoded frame [f] (lines 153-154), and
    the path of the file written when the counter is [frame_count] in the
    window starting at [timestamp] (lines 158-160). *)
Definition cropped (f : frame) : frame :=
  crop f video_width video_height (roi self).

Definition path_of (frame_count : Z) (timestamp : Q) : string :=
  Py.os_path_join (output_dir self) (frame_filename frame_count timestamp).

(** The [for idx in frame_indices] loop, lines 146-166; [break] leaves the
    rest of the list unvisited.  The result is the updated [frame_count]. *)
Fixpoint for_loop (current_time : Q) (indices : list Z) (frame_count : Z) : W Z :=
  match indices with
  | [] => ret frame_count
  | idx :: rest =>
      r <- cap_read idx ;;
      match r with
      | None => ret frame_count
      | Some frame =>
          let frame := crop frame video_width video_height (roi self) in
          if 0 <? frame_size frame then
            let timestamp := current_time in
            let frame_path :=
              Py.os_path_join (output_dir self) (frame_filename frame_count timestamp) in
            imwrite frame_path frame ;;;
            let frame_count := frame_count + 1 in
            emit (E_progress (progress_percent current_time)) ;;;
            for_loop current_time rest frame_count
          else
            for_loop current_time rest frame_count
      end
  end.

(** The [while current_time < video_duration] loop, lines 134-170.  Each
    iteration uses one unit of [fuel]. *)
Fixpoint while_loop (fuel : nat) (current_time : Q) (frame_count : Z) : W Z :=
  if Py.ltb current_time video_duration then
    match fuel with
    | O => ([], OutOfFuel)
    | S fuel' =>
        frame_count <-
          for_loop current_time
            (frame_indices fps total_frames frame_interval (frames_per_second self)
                           current_time)
            frame_count ;;
        let current_time := (current_time + frame_interval)%Q in
        if Qle_bool frame_interval 0 then ret frame_count
        else while_loop fuel' current_time frame_count
    end
  else ret frame_count.

(** Lines 105-173, the body of the [try]. *)
Definition run_try (fuel : nat) : W unit :=
  if negb (isOpened cap) then
    emit (E_error ("Failed to open video: " ++ video_path self))
  else
    call (fun _ => [E_makedirs (output_dir self)]) (os_makedirs world (output_dir self)) ;;;
    frame_count <- while_loop fuel 0%Q 0 ;;
    emit E_release ;;;
    emit (E_finished frame_count).

(** Lines 104-176. *)
Definition run_fuel (fuel : nat) : W unit :=
  try_except (run_try fuel)
    (fun msg => emit (E_error ("Error extracting frames: " ++ msg))).

(** The number of iterations of the while loop: the windows of length
    [frame_interval] needed to cover [[0, video_duration)]. *)
Definition iterations : nat :=
  if Py.ltb 0 frame_interval
  then Z.to_nat (Qceiling (video_duration / frame_interval))
  else 1%nat.

Definition run : W unit := run_fuel iterations.

(** The file names of consecutive writes: the counter runs from
    [frame_count] on, write number [k] carries the start time [ts[k]] of
    its window. *)
Fixpoint paths_from (frame_count : Z) (ts : list Q) : list string :=
  match ts with
  | [] => []
  | t :: rest => path_of frame_count t :: paths_from (frame_count + 1) rest
  end.

(** What the loops may do: read, write a non-empty image, and report the
    progress of the window starting at [t]. *)
Definition loop_effect (t : Q) (e : effect) : Prop :=
  match e with
  | E_read _ => True
  | E_imwrite _ img _ => 0 < frame_size img
  | E_progress p => p = progress_percent t
  | _ => False
  end.

(** A log made of loop effects only: its signals are progress signals,
    and it holds no terminal signal, no [makedirs] and no [release]. *)
Definition loop_log (l : list effect) : Prop :=
  Forall (fun e => exists t, loop_effect t e) l.

(** The external calls raise nothing. *)
Definition no_exception : Prop :=
  (forall idx msg, read cap idx <> Exc msg) /\
  (forall msg, os_makedirs world (output_dir self) <> Exc msg) /\
  (forall path img msg, cv2_imwrite world path img <> Exc msg).

(** A frame index whose read gives a frame that is still not empty after
    cropping. *)
Definition good_index (idx : Z) : Prop :=
  exists f, read cap idx = Ok (Some f) /\ 0 < frame_size (cropped f).

(** The windows the while loop visits from [current_time] on: the start
    time of each with its planned frame indices. *)
Fixpoint windows (fuel : nat) (current_time : Q) : list (Q * list Z) :=
  if Py.ltb current_time video_duration then
    match fuel with
    | O => []
    | S fuel' =>
        (current_time,
         frame_indices fps total_frames frame_interval (frames_per_second self)
                       current_time)
        :: (if Qle_bool frame_interval 0 then []
            else windows fuel' (current_time + frame_interval)%Q)
    end
  else [].

(** The sampling plan: every planned frame index with the start time of
    its window, in the order of the loops. *)
Definition sampling_plan : list (Q * Z) :=
  flat_map (fun w => map (pair (fst w)) (snd w)) (windows iterations 0%Q).

End Run.

(** ** VideoFrameExtractor.on_roi_selected (lines 373-410) *)

(** The display at selection time: the shape of [self.current_frame], the
    size of the label's pixmap (both absent before a video is loaded) and
    the size of the label. *)
Record Display : Type := {
  current_frame : option (Z * Z);   (* shape[:2] = (height, width) *)
  pixmap : option (Z * Z);          (* (width, height) of the scaled pixmap *)
  label_size : Z * Z                (* (width, height) of the label *)
}.

(** The value assigned to [self.roi]; [None] when the handler returns
    without assigning. *)
Definition on_roi_selected (d : Display) (x y width height : Z) : option ROI :=
  match current_frame d, pixmap d with
  | Some (video_height, video_width), Some (pixmap_w, pixmap_h) =>
      let x_offset := Py.floordiv (fst (label_size d) - pixmap_w) 2 in
      let y_offset := Py.floordiv (snd (label_size d) - pixmap_h) 2 in
      let x_adj := x - x_offset in
      let y_adj := y - y_offset in
      if (x_adj <? 0) || (y_adj <? 0) || (pixmap_w <=? x_adj) || (pixmap_h <=? y_adj)
      then None
      else
        let scale_x :=
          if 0 <? pixmap_w then (inject_Z video_width / inject_Z pixmap_w)%Q else 1%Q in
        let scale_y :=
          if 0 <? pixmap_h then (inject_Z video_height / inject_Z pixmap_h)%Q else 1%Q in
        let roi_x := Py.int (inject_Z x_adj * scale_x) in
        let roi_y := Py.int (inject_Z y_adj * scale_y) in
        let roi_w := Py.int (inject_Z width * scale_x) in
        let roi_h := Py.int (inject_Z height * scale_y) in
        let roi_x := Z.max 0 (Z.min roi_x (video_width - 1)) in
        let roi_y := Z.max 0 (Z.min roi_y (video_height - 1)) in
        let roi_w := Z.min roi_w (video_width - roi_x) in
        let roi_h := Z.min roi_h (video_height - roi_y) in
        Some (roi_x, roi_y, roi_w, roi_h)
  | _, _ => None
  end.

(** ** RectangleSelector (lines 14-86) *)

Module Selector.

(** A [QPoint] is a pair [(x, y)]. *)
Definition QPoint : Type := (Z * Z)%type.

Inductive MouseButton : Type :=
| LeftButton
| RightButton
| MiddleButton.

Definition is_left (b : MouseButton) : bool :=
  match b with LeftButton => true | _ => false end.

(** The fields set by [__init__]. *)
Record RectangleSelector : Type := {
  start_point : option QPoint;
  end_point : option QPoint;
  drawing : bool;
  roi : option ROI
}.

Definition __init__ : RectangleSelector :=
  {| start_point := None; end_point := None; drawing := false; roi := None |}.

Section Handlers.

(** [bool(p)] for a [QPoint], as the Qt binding defines it. *)
Variable QPoint_bool : QPoint -> bool.

Definition truthy (p : option QPoint) : bool :=
  match p with
  | Some q => QPoint_bool q
  | None => false
  end.

(** Lines 26-30. *)
Definition mousePressEvent (button : MouseButton) (pos : QPoint)
           (self : RectangleSelector) : RectangleSelector :=
  if is_left button then
    {| start_point := Some pos; end_point := Some pos; drawing := true;
       roi := roi self |}
  else self.

(** Lines 32-35. *)
Definition mouseMoveEvent (pos : QPoint) (self : RectangleSelector) : RectangleSelector :=
  if drawing self then
    {| start_point := start_point self; end_point := Some pos;
       drawing := drawing self; roi := roi self |}
  else self.

(** Lines 44-65.  [parent_size] is [(width, height)] of
    [self.parent().size() if self.parent() else self.size()].  The result
    is the new state and the arguments of [roi_selected.emit], if it is
    called. *)
Definition _update_roi (parent_size : Z * Z) (self : RectangleSelector)
  : RectangleSelector * option ROI :=
  if truthy (start_point self) && truthy (end_point self) then
    match start_point self, end_point self with
    | Some (x1, y1), Some (x2, y2) =>
        let x := Z.min x1 x2 in
        let y := Z.min y1 y2 in
        let width := Z.abs (x2 - x1) in
        let height := Z.abs (y2 - y1) in
        let x := Z.max 0 (Z.min x (fst parent_size - 1)) in
        let y := Z.max 0 (Z.min y (snd parent_size - 1)) in
        let width := Z.min width (fst parent_size - x) in
        let height := Z.min height (snd parent_size - y) in
        if (0 <? width) && (0 <? height) then
          ({| start_point := start_point self; end_point := end_point self;
              drawing := drawing self; roi := Some (x, y, width, height) |},
           Some (x, y, width, height))
        else (self, None)
    | _, _ => (self, None)
    end
  else (self, None).

(** Lines 37-42. *)
Definition mouseReleaseEvent (parent_size : Z * Z) (button : MouseButton) (pos : QPoint)
           (self : RectangleSelector) : RectangleSelector * option ROI :=
  if is_left button && drawing self then
    _update_roi parent_size
      {| start_point := start_point self; end_point := Some pos;
         drawing := false; roi := roi self |}
  else (self, None).

(** Lines 82-86. *)
Definition clear_selection (self : RectangleSelector) : RectangleSelector :=
  {| start_point := None; end_point := None; drawing := drawing self; roi := None |}.

(** The events the widget receives, and what handling a sequence of them
    emits. *)
Inductive event : Type :=
| Press (button : MouseButton) (pos : QPoint)
| Move (pos : QPoint)
| Release (parent_size : Z * Z) (button : MouseButton) (pos : QPoint)
| Clear.

Definition handle (self : RectangleSelector) (e : event)
  : RectangleSelector * option ROI :=
  match e with
  | Press button pos => (mousePressEvent button pos self, None)
  | Move pos => (mouseMoveEvent pos self, None)
  | Release parent_size button pos => mouseReleaseEvent parent_size button pos self
  | Clear => (clear_selection self, None)
  end.

Fixpoint handle_all (self : RectangleSelector) (events : list event)
  : RectangleSelector * list ROI :=
  match events with
  | [] => (self, [])
  | e :: rest =>
      let (self', out) := handle self e in
      let (self'', outs) := handle_all self' rest in
      (self'', match out with Some r => r :: outs | None => outs end)
  end.

End Handlers.

End Selector.

(** ** VideoFrameExtractor: starting a job and handling its signals
    (lines 422-463) *)

Module Window.

(** The message boxes shown to the user. *)
Inductive dialog : Type :=
| Warning (text : string)
| Information (text : string)
| Critical (text : string).

(** The part of the window that [extract_frames] and the signal handlers
    read and write: two attributes, the values of three input widgets, the
    enabled flag of the extract button and the value of the progress
    bar. *)
Record VideoFrameExtractor : Type := {
  video_path : option string;
  roi : option ROI;
  interval_spin : Q;
  fps_spin : Z;
  output_dir_edit : string;
  extract_btn : bool;
  progress_bar : Z
}.

(** [self.progress_bar.setValue(v)] for a bar with minimum 0 and maximum
    100 (lines 297-300): a value outside the range is ignored. *)
Definition progress_bar_setValue (v : Z) (self : VideoFrameExtractor) : VideoFrameExtractor :=
  {| video_path := video_path self; roi := roi self;
     interval_spin := interval_spin self; fps_spin := fps_spin self;
     output_dir_edit := output_dir_edit self; extract_btn := extract_btn self;
     progress_bar := if (0 <=? v) && (v <=? 100) then v else progress_bar self |}.

Definition extract_btn_setEnabled (b : bool) (self : VideoFrameExtractor) : VideoFrameExtractor :=
  {| video_path := video_path self; roi := roi self;
     interval_spin := interval_spin self; fps_spin := fps_spin self;
     output_dir_edit := output_dir_edit self; extract_btn := b;
     progress_bar := progress_bar self |}.

(** [not s] for an optional string: [None] and the empty string are
    false. *)
Definition is_set (s : option string) : bool :=
  match s with
  | Some (String _ _) => true
  | _ => false
  end.

(** Lines 422-450: the new window, the dialogs shown, and the thread that
    is started, if any. *)
Definition extract_frames (self : VideoFrameExtractor)
  : VideoFrameExtractor * list dialog * option FrameExtractorThread :=
  if negb (is_set (video_path self)) then
    (self, [Warning "Please load a video first"], None)
  else
    let interval_seconds := interval_spin self in
    let frames_per_second := fps_spin self in
    let output_dir := output_dir_edit self in
    if String.eqb output_dir EmptyString then
      (self, [Warning "Please specify an output directory"], None)
    else
      (progress_bar_setValue 0 (extract_btn_setEnabled false self),
       [],
       option_map
         (fun path =>
            Build_FrameExtractorThread path output_dir interval_seconds
              frames_per_second (roi self))
         (video_path self)).

(** Lines 452-459. *)
Definition on_extraction_finished (frame_count : Z) (self : VideoFrameExtractor)
  : VideoFrameExtractor * list dialog :=
  (extract_btn_setEnabled true (progress_bar_setValue 100 self),
   [Information ("Successfully extracted " ++ Py.str frame_count ++ " frames!")]).

(** Lines 461-463. *)
Definition on_extraction_error (error_message : string) (self : VideoFrameExtractor)
  : VideoFrameExtractor * list dialog :=
  (extract_btn_setEnabled true self, [Critical error_message]).

(** Lines 447-449: the slot each signal of the thread is connected to. *)
Definition deliver (self : VideoFrameExtractor) (signal : effect)
  : VideoFrameExtractor * list dialog :=
  match signal with
  | E_progress percent => (progress_bar_setValue percent self, [])
  | E_finished frame_count => on_extraction_finished frame_count self
  | E_error msg => on_extraction_error msg self
  | _ => (self, [])
  end.

Fixpoint deliver_all (self : VideoFrameExtractor) (sigs : list effect)
  : VideoFrameExtractor * list dialog :=
  match sigs with
  | [] => (self, [])
  | e :: rest =>
      let (self', shown) := deliver self e in
      let (self'', shown') := deliver_all self' rest in
      (self'', shown ++ shown')
  end.

End Window.

(** ** Reading a file name back *)

(** The number a string of decimal digits denotes, leading zeros
    allowed; [None] when a character is not a digit. *)
Definition digits_value (s : string) : option N :=
  option_map N.of_uint (NilEmpty.uint_of_string s).

Fixpoint no_underscore (s : string) : bool :=
  match s with
  | EmptyString => true
  | String a rest => negb (Ascii.eqb a "_") && no_underscore rest
  end.

(** ** Reading a log *)


Definition is_signal (e : effect) : bool :=
  match e with
  | E_progress _ | E_finished _ | E_error _ => true
  | _ => false
  end.

(** The Qt signals of a log, in order. *)
Definition signals (log : list effect) : list effect := filter is_signal log.

(** The percent values of the progress signals, in order. *)
Definition progress_values (log : list effect) : list Z :=
  flat_map (fun e => match e with E_progress p => [p] | _ => [] end) log.

(** The frame indices handed to [cap.read], in order. *)
Definition reads (log : list effect) : list Z :=
  flat_map (fun e => match e with E_read idx => [idx] | _ => [] end) log.

(** The paths handed to [cv2.imwrite], and those for which it returned
    [True]. *)
Definition attempted_paths (log : list effect) : list string :=
  flat_map (fun e => match e with E_imwrite p _ _ => [p] | _ => [] end) log.

Definition written_paths (log : list effect) : list string :=
  flat_map (fun e => match e with E_imwrite p _ true => [p] | _ => [] end) log.

Definition touches_disk (e : effect) : bool :=
  match e with
  | E_makedirs _ | E_imwrite _ _ _ => true
  | _ => false
  end.

(** The indices of one window that are read: up to and including the
    first one whose read returns [ret == False]. *)
Fixpoint visited (c : VideoCapture) (indices : list Z) : list Z :=
  match indices with
  | [] => []
  | idx :: rest =>
      match read c idx with
      | Ok (Some _) => idx :: visited c rest
      | _ => [idx]
      end
  end.

(** ** Sample worlds *)

Module Sample.

Definition blank (h w : nat) : frame := repeat (repeat (0, 0, 0) w) h.

(** Six frames of 2x2 at 1 fps; frame 1 cannot be decoded. *)
Definition clip : VideoCapture := {|
  isOpened := true;
  CAP_PROP_FPS := 1;
  CAP_PROP_FRAME_COUNT := 6;
  CAP_PROP_FRAME_WIDTH := 2;
  CAP_PROP_FRAME_HEIGHT := 2;
  read := fun idx => if idx =? 1 then Ok None else Ok (Some (blank 2 2))
|}.

(** Ten seconds at 30 fps, 4x2, every frame decodable. *)
Definition movie : VideoCapture := {|
  isOpened := true;
  CAP_PROP_FPS := 30;
  CAP_PROP_FRAME_COUNT := 300;
  CAP_PROP_FRAME_WIDTH := 4;
  CAP_PROP_FRAME_HEIGHT := 2;
  read := fun idx => Ok (Some (blank 2 4))
|}.

(** A file that does not open. *)
Definition broken : VideoCapture := {|
  isOpened := false;
  CAP_PROP_FPS := 0;
  CAP_PROP_FRAME_COUNT := 0;
  CAP_PROP_FRAME_WIDTH := 0;
  CAP_PROP_FRAME_HEIGHT := 0;
  read := fun _ => Ok None
|}.


(** Two decodable frames of 2x2 at 1 fps. *)
Definition short : VideoCapture := {|
  isOpened := true;
  CAP_PROP_FPS := 1;
  CAP_PROP_FRAME_COUNT := 2;
  CAP_PROP_FRAME_WIDTH := 2;
  CAP_PROP_FRAME_HEIGHT := 2;
  read := fun idx => Ok (Some (blank 2 2))
|}.

(** Like [clip], but the decoder raises on frame 1. *)
Definition faulty : VideoCapture := {|
  isOpened := true;
  CAP_PROP_FPS := 1;
  CAP_PROP_FRAME_COUNT := 3;
  CAP_PROP_FRAME_WIDTH := 2;
  CAP_PROP_FRAME_HEIGHT := 2;
  read := fun idx => if idx =? 1 then Exc "decoder fault" else Ok (Some (blank 2 2))
|}.

Definition disk (c : VideoCapture) : World := {|
  cv2_VideoCapture := fun _ => c;
  os_makedirs := fun _ => Ok tt;
  cv2_imwrite := fun _ _ => Ok true
|}.

(** An output directory that exists but cannot be written to:
    [os.makedirs(..., exist_ok=True)] succeeds and [cv2.imwrite] returns
    [False] for every file. *)
Definition read_only_disk (c : VideoCapture) : World := {|
  cv2_VideoCapture := fun _ => c;
  os_makedirs := fun _ => Ok tt;
  cv2_imwrite := fun _ _ => Ok false
|}.

Definition job (interval : Q) (density : Z) (r : option ROI) : FrameExtractorThread := {|
  video_path := "v.mp4";
  output_dir := "out";
  interval_seconds := interval;
  frames_per_second := density;
  roi := r
|}.

End Sample.

(** ** The specification's wording, for comparison *)

Module Spec.


(** SamplingPlanner, the rule for one window starting at [t]. *)
Section WindowRule.

Variables (fps : Q) (frameCount : Z) (effectiveInterval : Q) (density : Z).

Definition startFrame (t : Q) : Z := Qfloor (t * fps).

Definition endFrame (t : Q) : Z :=
  Z.min (Qfloor ((t + effectiveInterval) * fps)) frameCount.

(** [min(density * effectiveInterval, endFrame - startFrame)], before
    rounding down. *)
Definition raw_target (t : Q) : Q :=
  Py.min (inject_Z density * effectiveInterval)
         (inject_Z (endFrame t - startFrame t)).

Definition target (t : Q) : Z := Qfloor (raw_target t).


End WindowRule.

End Spec.

(** * Facts *)

(** ** Python numerics *)

Lemma ltb_lt (x y : Q) : Py.ltb x y = true <-> (x < y)%Q.
Proof.
  unfold Py.ltb. rewrite negb_true_iff. split.
  - intros H. apply Qnot_le_lt. intros Hle.
    apply Qle_bool_iff in Hle. congruence.
  - intros H. destruct (Qle_bool y x) eqn:E; [|reflexivity].
    apply Qle_bool_iff in E. exfalso. exact (Qlt_not_le _ _ H E).
Qed.

Lemma ltb_ge (x y : Q) : Py.ltb x y = false <-> (y <= x)%Q.
Proof.
  unfold Py.ltb. rewrite negb_false_iff. apply Qle_bool_iff.
Qed.

Lemma int_nonneg (x : Q) : (0 <= x)%Q -> Py.int x = Qfloor x.
Proof.
  destruct x as [n d]. unfold Qle, Py.int, Qfloor. simpl. intros H.
  apply Z.quot_div_nonneg; lia.
Qed.

Lemma int_inject_Z (z : Z) : Py.int (inject_Z z) = z.
Proof. unfold Py.int. simpl. apply Z.quot_1_r. Qed.

Lemma min_cases (a b : Q) :
  ((b < a)%Q /\ Py.min a b = b) \/ ((a <= b)%Q /\ Py.min a b = a).
Proof.
  unfold Py.min. destruct (Py.ltb b a) eqn:E.
  - left. split; [apply ltb_lt; exact E | reflexivity].
  - right. split; [apply ltb_ge; exact E | reflexivity].
Qed.

Lemma Qfloor_add_Z (x : Q) (z : Z) : Qfloor (x + inject_Z z) = Qfloor x + z.
Proof.
  destruct x as [n d]. unfold Qfloor, Qplus, inject_Z. simpl.
  rewrite Z.mul_1_r, Pos.mul_1_r.
  rewrite Z.div_add by lia. reflexivity.
Qed.

Lemma Qfloor_bounds (x : Q) (z : Z) :
  Qfloor x = z <-> (inject_Z z <= x /\ x < inject_Z (z + 1))%Q.
Proof.
  split.
  - intros <-. split; [apply Qfloor_le | apply Qlt_floor].
  - intros [Hlo Hhi].
    apply Qfloor_resp_le in Hlo. rewrite Qfloor_Z in Hlo.
    assert (Hlt : Qfloor x < z + 1).
    { rewrite Zlt_Qlt. eapply Qle_lt_trans; [apply Qfloor_le | exact Hhi]. }
    lia.
Qed.

Lemma Qfloor_nonneg (x : Q) : (0 <= x)%Q -> 0 <= Qfloor x.
Proof.
  intros H. apply Qfloor_resp_le in H. exact H.
Qed.

(** ** Slicing and cropping *)

Lemma slice_inside {A : Type} (a b : Z) (l : list A) :
  0 <= a -> a <= b -> b <= Z.of_nat (List.length l) ->
  Py.slice a b l = firstn (Z.to_nat (b - a)) (skipn (Z.to_nat a) l).
Proof.
  intros Ha Hab Hb. unfold Py.slice, Py.slice_bound.
  destruct (a <? 0) eqn:Ea; [apply Z.ltb_lt in Ea; lia|].
  destruct (b <? 0) eqn:Eb; [apply Z.ltb_lt in Eb; lia|].
  rewrite !Z.min_l by lia. reflexivity.
Qed.

Lemma slice_length {A : Type} (a b : Z) (l : list A) :
  0 <= a -> a <= b -> b <= Z.of_nat (List.length l) ->
  Z.of_nat (List.length (Py.slice a b l)) = b - a.
Proof.
  intros Ha Hab Hb. rewrite slice_inside by assumption.
  rewrite length_firstn, length_skipn. lia.
Qed.

Lemma slice_nth {A : Type} (a b : Z) (l : list A) (i : Z) (d : A) :
  0 <= a -> a <= b -> b <= Z.of_nat (List.length l) ->
  0 <= i < b - a ->
  nth (Z.to_nat i) (Py.slice a b l) d = nth (Z.to_nat (a + i)) l d.
Proof.
  intros Ha Hab Hb Hi. rewrite slice_inside by assumption.
  rewrite nth_firstn.
  destruct (Nat.ltb_spec (Z.to_nat i) (Z.to_nat (b - a))) as [_|Hge]; [|lia].
  rewrite nth_skipn. f_equal. lia.
Qed.

Lemma firstn_incl {A : Type} (n : nat) (l : list A) : incl (firstn n l) l.
Proof.
  intros x Hx. rewrite <- (firstn_skipn n l). apply in_or_app. left. exact Hx.
Qed.

Lemma skipn_incl {A : Type} (n : nat) (l : list A) : incl (skipn n l) l.
Proof.
  intros x Hx. rewrite <- (firstn_skipn n l). apply in_or_app. right. exact Hx.
Qed.

Lemma slice_incl {A : Type} (a b : Z) (l : list A) : incl (Py.slice a b l) l.
Proof.
  unfold Py.slice. intros x Hx.
  apply firstn_incl in Hx. apply skipn_incl in Hx. exact Hx.
Qed.

Lemma concat_length_rect {A : Type} (l : list (list A)) (w : Z) :
  Forall (fun row => Z.of_nat (List.length row) = w) l ->
  Z.of_nat (List.length (List.concat l)) = Z.of_nat (List.length l) * w.
Proof.
  induction 1 as [|row l Hrow _ IH].
  - reflexivity.
  - cbn [List.concat List.length].
    rewrite length_app, Nat2Z.inj_add, Nat2Z.inj_succ, IH, Hrow. lia.
Qed.

Lemma frame_size_shape (f : frame) (h w : Z) :
  has_shape f h w -> frame_size f = 3 * (h * w).
Proof.
  intros [Hh Hw]. unfold frame_size.
  rewrite (concat_length_rect f w Hw), Hh. reflexivity.
Qed.

Lemma frame_slice_shape (f : frame) (vh vw y h x w : Z) :
  has_shape f vh vw ->
  0 <= y -> 0 <= h -> y + h <= vh ->
  0 <= x -> 0 <= w -> x + w <= vw ->
  has_shape (frame_slice y (y + h) x (x + w) f) h w.
Proof.
  intros [Hh Hw] Hy Hh0 Hyh Hx Hw0 Hxw. unfold frame_slice. split.
  - rewrite length_map, slice_length by lia. lia.
  - apply Forall_map. rewrite Forall_forall in *. intros row Hrow.
    apply slice_incl in Hrow. specialize (Hw row Hrow).
    rewrite slice_length by lia. lia.
Qed.

Lemma frame_slice_pixel (f : frame) (vh vw y h x w i j : Z) (d : pixel) :
  has_shape f vh vw ->
  0 <= y -> y + h <= vh -> 0 <= x -> x + w <= vw ->
  0 <= i < h -> 0 <= j < w ->
  nth (Z.to_nat j) (nth (Z.to_nat i) (frame_slice y (y + h) x (x + w) f) []) d
  = nth (Z.to_nat (x + j)) (nth (Z.to_nat (y + i)) f []) d.
Proof.
  intros [Hh Hw] Hy Hyh Hx Hxw Hi Hj. unfold frame_slice.
  assert (Hlen : (Z.to_nat i < List.length (Py.slice y (y + h) f))%nat).
  { apply Nat2Z.inj_lt. rewrite slice_length by lia. lia. }
  rewrite (nth_indep (map (Py.slice x (x + w)) (Py.slice y (y + h) f))
             [] (Py.slice x (x + w) []))
    by (rewrite length_map; exact Hlen).
  rewrite map_nth.
  rewrite (slice_nth y (y + h) f i []) by lia.
  assert (Hrow : Z.of_nat (List.length (nth (Z.to_nat (y + i)) f [])) = vw).
  { rewrite Forall_forall in Hw. apply Hw. apply nth_In. lia. }
  replace (x + w - x) with w in * by lia.
  apply slice_nth; lia.
Qed.

Lemma clamp_roi_bounds (r : ROI) (vw vh : Z) :
  0 < vw -> 0 < vh ->
  let '(x, y, w, h) := clamp_roi (Some r) vw vh in
  0 <= x < vw /\ 0 <= y < vh /\ x + w <= vw /\ y + h <= vh.
Proof.
  intros Hw Hh. destruct r as [[[rx ry] rw] rh]. simpl. lia.
Qed.

Lemma blank_shape (h w : nat) :
  has_shape (Sample.blank h w) (Z.of_nat h) (Z.of_nat w).
Proof.
  unfold Sample.blank. split.
  - rewrite repeat_length. reflexivity.
  - apply Forall_forall. intros row Hrow.
    apply repeat_spec in Hrow. subst row. rewrite repeat_length. reflexivity.
Defined.

(** ** The coordinate mapper *)




(** ** np.linspace *)

Lemma sample_div (start stop div i : Z) :
  0 < div ->
  Np.sample start stop div i = start + (i * (stop - start)) / div.
Proof.
  intros Hdiv. unfold Np.sample. rewrite Qfloor_add_Z.
  rewrite (Zdiv_Qdiv (i * (stop - start)) div).
  rewrite Z.add_comm. f_equal. apply Qfloor_comp.
  rewrite inject_Z_mult. unfold Qdiv. apply Qmult_assoc.
Qed.

Lemma linspace_length (start stop num : Z) :
  List.length (Np.linspace start stop num) = Z.to_nat num.
Proof.
  unfold Np.linspace. destruct (Z.to_nat num) as [|[|n]]; try reflexivity.
  rewrite length_app, length_map, length_seq. simpl. lia.
Qed.

Lemma linspace_one (start stop : Z) : Np.linspace start stop 1 = [start].
Proof. reflexivity. Qed.


Lemma linspace_bounds (start stop num : Z) :
  start <= stop ->
  Forall (fun idx => start <= idx <= stop) (Np.linspace start stop num).
Proof.
  intros Hle. unfold Np.linspace.
  destruct (Z.to_nat num) as [|[|n]] eqn:En.
  - constructor.
  - constructor; [lia | constructor].
  - apply Forall_app. split; [|constructor; [lia | constructor]].
    apply Forall_map. apply Forall_forall. intros i Hi.
    apply in_seq in Hi. rewrite sample_div by lia.
    assert (H0 : 0 <= Z.of_nat i * (stop - start) / (num - 1)).
    { apply Z.div_pos; nia. }
    assert (H1 : Z.of_nat i * (stop - start) / (num - 1) <= stop - start).
    { apply Z.div_le_upper_bound; nia. }
    lia.
Qed.

Lemma linspace_sorted (start stop num : Z) :
  start <= stop ->
  StronglySorted Z.le (Np.linspace start stop num).
Proof.
  intros Hle. unfold Np.linspace.
  destruct (Z.to_nat num) as [|[|n]] eqn:En.
  - constructor.
  - constructor; constructor.
  - assert (Hgen : forall len a,
              (a + len <= S n)%nat ->
              StronglySorted Z.le
                (map (fun i => Np.sample start stop (num - 1) (Z.of_nat i)) (seq a len)
                 ++ [stop])).
    { induction len as [|len IH]; intros a Ha; simpl.
      - constructor; constructor.
      - constructor; [apply IH; lia|].
        apply Forall_app. split.
        + apply Forall_map. apply Forall_forall. intros i Hi.
          apply in_seq in Hi. rewrite !sample_div by lia.
          apply Z.add_le_mono_l. apply Z.div_le_mono; nia.
        + constructor; [|constructor]. rewrite sample_div by lia.
          assert (Z.of_nat a * (stop - start) / (num - 1) <= stop - start).
          { apply Z.div_le_upper_bound; nia. }
          lia. }
    apply Hgen. lia.
Qed.

(** ** One sampling window *)

Section WindowFacts.

Variables (fps : Q) (total_frames : Z) (frame_interval : Q) (density : Z).
Hypothesis fps_pos : (0 < fps)%Q.
Hypothesis interval_pos : (0 < frame_interval)%Q.

Lemma start_frame_floor (t : Q) :
  (0 <= t)%Q -> start_frame fps t = Spec.startFrame fps t.
Proof.
  intros Ht. unfold start_frame, Spec.startFrame. apply int_nonneg.
  apply Qmult_le_0_compat; [exact Ht | apply Qlt_le_weak; exact fps_pos].
Qed.

Lemma end_frame_floor (t : Q) :
  (0 <= t)%Q ->
  end_frame fps total_frames frame_interval t
  = Spec.endFrame fps total_frames frame_interval t.
Proof.
  intros Ht. unfold end_frame, Spec.endFrame.
  set (x := ((t + frame_interval) * fps)%Q).
  assert (Hx : (0 <= x)%Q).
  { apply Qmult_le_0_compat; [|apply Qlt_le_weak; exact fps_pos].
    replace 0%Q with (0 + 0)%Q by reflexivity.
    apply Qplus_le_compat; [exact Ht | apply Qlt_le_weak; exact interval_pos]. }
  destruct (min_cases x (inject_Z total_frames)) as [[Hlt ->]|[Hle ->]].
  - rewrite int_inject_Z.
    apply Qlt_le_weak, Qfloor_resp_le in Hlt. rewrite Qfloor_Z in Hlt. lia.
  - rewrite int_nonneg by exact Hx.
    apply Qfloor_resp_le in Hle. rewrite Qfloor_Z in Hle. lia.
Qed.

Lemma frames_in_interval_raw (t : Q) :
  (0 <= t)%Q ->
  frames_in_interval fps total_frames frame_interval density t
  = Spec.raw_target fps total_frames frame_interval density t.
Proof.
  intros Ht. unfold frames_in_interval, Spec.raw_target.
  rewrite start_frame_floor, end_frame_floor by exact Ht. reflexivity.
Qed.

(** The branch taken by line 141 and what it yields. *)
Lemma frame_indices_cases (t : Q) :
  (0 <= t)%Q ->
  let s := Spec.startFrame fps t in
  let e := Spec.endFrame fps total_frames frame_interval t in
  let raw := Spec.raw_target fps total_frames frame_interval density t in
  ((0 < raw)%Q /\ s <= e - 1 /\
   frame_indices fps total_frames frame_interval density t
   = Np.linspace s (e - 1) (Qfloor raw)) \/
  ((raw <= 0)%Q /\
   frame_indices fps total_frames frame_interval density t
   = if s <? total_frames then [s] else []).
Proof.
  intros Ht s e raw. unfold frame_indices.
  rewrite frames_in_interval_raw, start_frame_floor, end_frame_floor by exact Ht.
  fold s e raw.
  destruct (Py.ltb 0 raw) eqn:E.
  - left. apply ltb_lt in E. split; [exact E|].
    rewrite int_nonneg by (apply Qlt_le_weak; exact E).
    split; [|reflexivity].
    assert (Hraw : (raw <= inject_Z (e - s))%Q).
    { unfold raw, Spec.raw_target. fold s e.
      destruct (min_cases (inject_Z density * frame_interval) (inject_Z (e - s)))
        as [[_ ->]|[Hle ->]]; [apply Qle_refl | exact Hle]. }
    assert (Hpos : (inject_Z 0 < inject_Z (e - s))%Q).
    { eapply Qlt_le_trans; [exact E | exact Hraw]. }
    rewrite <- Zlt_Qlt in Hpos. lia.
  - right. apply ltb_ge in E. split; [exact E | reflexivity].
Qed.

Lemma startFrame_nonneg (t : Q) : (0 <= t)%Q -> 0 <= Spec.startFrame fps t.
Proof.
  intros Ht. apply Qfloor_nonneg.
  apply Qmult_le_0_compat; [exact Ht | apply Qlt_le_weak; exact fps_pos].
Qed.

Lemma startFrame_mono (t u : Q) :
  (t <= u)%Q -> Spec.startFrame fps t <= Spec.startFrame fps u.
Proof.
  intros H. apply Qfloor_resp_le.
  apply Qmult_le_compat_r; [exact H | apply Qlt_le_weak; exact fps_pos].
Qed.

Lemma endFrame_le_next (t : Q) :
  Spec.endFrame fps total_frames frame_interval t
  <= Spec.startFrame fps (t + frame_interval).
Proof. unfold Spec.endFrame, Spec.startFrame. lia. Qed.

(** Every index of a window lies between its start frame and the start
    frame of the next window, and the indices of a window are sorted. *)
Lemma frame_indices_range (t : Q) :
  (0 <= t)%Q ->
  Forall (fun idx => Spec.startFrame fps t <= idx
                     <= Spec.startFrame fps (t + frame_interval))
         (frame_indices fps total_frames frame_interval density t).
Proof.
  intros Ht. pose proof (endFrame_le_next t) as Hnext.
  destruct (frame_indices_cases t Ht) as [(_ & Hse & ->)|(_ & ->)].
  - eapply Forall_impl; [|apply linspace_bounds; exact Hse].
    simpl. intros idx H. lia.
  - destruct (_ <? _); constructor; [|constructor].
    split; [lia|]. apply startFrame_mono.
    rewrite <- (Qplus_0_r t) at 1. apply Qplus_le_compat;
      [apply Qle_refl | apply Qlt_le_weak; exact interval_pos].
Qed.

Lemma frame_indices_sorted (t : Q) :
  (0 <= t)%Q ->
  StronglySorted Z.le (frame_indices fps total_frames frame_interval density t).
Proof.
  intros Ht.
  destruct (frame_indices_cases t Ht) as [(_ & Hse & ->)|(_ & ->)].
  - apply linspace_sorted. exact Hse.
  - destruct (_ <? _); repeat constructor.
Qed.

End WindowFacts.

(** ** The inner loop *)

Section LoopFacts.

Variable world : World.
Variable self : FrameExtractorThread.

(** One iteration of the [for] loop, case by case. *)
Lemma for_loop_cons (t : Q) (idx : Z) (rest : list Z) (frame_count : Z) :
  for_loop world self t (idx :: rest) frame_count =
  match read (cap world self) idx with
  | Exc msg => ([E_read idx], Raised msg)
  | Ok None => ([E_read idx], Done frame_count)
  | Ok (Some f) =>
      if 0 <? frame_size (cropped world self f) then
        match cv2_imwrite world (path_of self frame_count t) (cropped world self f) with
        | Exc msg => ([E_read idx], Raised msg)
        | Ok ok =>
            (E_read idx :: E_imwrite (path_of self frame_count t) (cropped world self f) ok
               :: E_progress (progress_percent world self t)
               :: fst (for_loop world self t rest (frame_count + 1)),
             snd (for_loop world self t rest (frame_count + 1)))
        end
      else (E_read idx :: fst (for_loop world self t rest frame_count),
            snd (for_loop world self t rest frame_count))
  end.
Proof.
  cbn [for_loop]. unfold cap_read, imwrite, bind, emit, call, ret, cropped, path_of.
  destruct (read (cap world self) idx) as [[f|]|msg]; cbn [app]; try reflexivity.
  destruct (0 <? frame_size _); cbn [app].
  - destruct (cv2_imwrite world _ _) as [ok|msg]; cbn [app]; [|reflexivity].
    destruct (for_loop world self t rest (frame_count + 1)). reflexivity.
  - destruct (for_loop world self t rest frame_count). reflexivity.
Qed.


Ltac for_loop_step IH t idx rest c :=
  rewrite (for_loop_cons t idx rest c);
  destruct (read (cap world self) idx) as [[?f|]|?msg] eqn:?Hread;
  [ destruct (0 <? frame_size (cropped world self _)) eqn:?Hsize;
    [ destruct (cv2_imwrite world _ _) as [?ok|?msg] eqn:?Hwrite;
      [ specialize (IH (c + 1)) | ]
    | specialize (IH c) ]
  | | ].

Lemma for_loop_fuel (t : Q) (indices : list Z) (frame_count : Z) :
  snd (for_loop world self t indices frame_count) <> OutOfFuel.
Proof.
  revert frame_count. induction indices as [|idx rest IH]; intros c.
  - discriminate.
  - for_loop_step IH t idx rest c; cbn [snd]; try discriminate; exact IH.
Qed.

Lemma for_loop_effects (t : Q) (indices : list Z) (frame_count : Z) :
  Forall (loop_effect world self t) (fst (for_loop world self t indices frame_count)).
Proof.
  revert frame_count. induction indices as [|idx rest IH]; intros c.
  - constructor.
  - for_loop_step IH t idx rest c; cbn [fst];
      repeat (constructor;
              [first [exact I | reflexivity | apply Z.ltb_lt; assumption]|]);
      try exact IH; constructor.
Qed.

(** The reads of one window stop at the first failed read; unless an
    external call raises, the loop ends normally. *)
Lemma for_loop_reads (t : Q) (indices : list Z) (frame_count : Z) :
  no_exception world self ->
  reads (fst (for_loop world self t indices frame_count))
  = visited (cap world self) indices /\
  exists frame_count', snd (for_loop world self t indices frame_count) = Done frame_count'.
Proof.
  intros (Hr & _ & Hw).
  revert frame_count. induction indices as [|idx rest IH]; intros c.
  - split; [reflexivity | eexists; reflexivity].
  - cbn [visited].
    for_loop_step IH t idx rest c; cbn [fst snd].
    + destruct IH as [IH1 IH2]. split; [|exact IH2].
      cbn. rewrite <- IH1. reflexivity.
    + exfalso. eapply Hw. eassumption.
    + destruct IH as [IH1 IH2]. split; [|exact IH2].
      cbn. rewrite <- IH1. reflexivity.
    + split; [reflexivity | eexists; reflexivity].
    + exfalso. eapply Hr. eassumption.
Qed.

(** The counter advances by one for each call of [cv2.imwrite], whatever
    the call returns, and call number [k] of the window uses the counter
    value [frame_count + k] in its file name. *)
Lemma for_loop_counter (t : Q) (indices : list Z) (frame_count : Z) :
  let log := fst (for_loop world self t indices frame_count) in
  attempted_paths log
  = map (fun k => path_of self (frame_count + Z.of_nat k) t)
        (seq 0 (List.length (attempted_paths log))) /\
  forall frame_count',
    snd (for_loop world self t indices frame_count) = Done frame_count' ->
    frame_count' = frame_count + Z.of_nat (List.length (attempted_paths log)).
Proof.
  revert frame_count. induction indices as [|idx rest IH]; intros c.
  - split; [reflexivity|]. cbn. intros c' [= <-]. lia.
  - for_loop_step IH t idx rest c; cbn [fst snd]; cbv zeta in IH |- *.
    + destruct IH as [IH1 IH2]. cbn [attempted_paths flat_map app List.length seq map].
      fold (attempted_paths (fst (for_loop world self t rest (c + 1)))).
      split.
      * rewrite Z.add_0_r. f_equal. rewrite IH1 at 1.
        rewrite <- seq_shift, map_map. apply map_ext. intros k.
        f_equal. lia.
      * intros c' Hc'. rewrite (IH2 c' Hc'). lia.
    + split; [reflexivity | discriminate].
    + destruct IH as [IH1 IH2]. cbn [attempted_paths flat_map app].
      fold (attempted_paths (fst (for_loop world self t rest c))).
      split; [exact IH1 | exact IH2].
    + split; [reflexivity|]. cbn. intros c' [= <-]. lia.
    + split; [reflexivity | discriminate].
Qed.


(** ** The outer loop *)

(** When the loop body runs at all, the video has a positive frame rate,
    at least one frame, and the window length is positive. *)
Lemma duration_pos :
  (0 < video_duration world self)%Q ->
  (0 < fps world self)%Q /\ 0 < total_frames world self /\
  (0 < frame_interval world self)%Q /\
  (video_duration world self == inject_Z (total_frames world self) / fps world self)%Q.
Proof.
  intros Hd. unfold video_duration in *.
  destruct (Py.ltb 0 (fps world self)) eqn:Efps;
    [|exfalso; exact (Qlt_irrefl 0 Hd)].
  apply ltb_lt in Efps. split; [exact Efps|]. split; [|split; [|reflexivity]].
  - destruct (Z_lt_le_dec 0 (total_frames world self)) as [H|H]; [exact H|].
    exfalso. apply (Qlt_not_le _ _ Hd).
    apply Qle_shift_div_r; [exact Efps|].
    rewrite Qmult_0_l. rewrite Zle_Qle in H. exact H.
  - unfold frame_interval, video_duration.
    destruct (Py.ltb 0 (interval_seconds self)) eqn:Ei.
    + apply ltb_lt. exact Ei.
    + destruct (Py.ltb 0 (fps world self)) eqn:Efps';
        [exact Hd | apply ltb_ge in Efps'; exfalso; exact (Qlt_not_le _ _ Efps Efps')].
Qed.

Lemma interval_not_le_0 (t : Q) :
  (0 <= t)%Q -> Py.ltb t (video_duration world self) = true ->
  Qle_bool (frame_interval world self) 0 = false.
Proof.
  intros Ht Hlt. apply ltb_lt in Hlt.
  destruct (duration_pos (Qle_lt_trans _ _ _ Ht Hlt)) as (_ & _ & Hi & _).
  destruct (Qle_bool _ 0) eqn:E; [|reflexivity].
  apply Qle_bool_iff in E. exfalso. exact (Qlt_not_le _ _ Hi E).
Qed.

(** One iteration of the [while] loop started at a time [t >= 0]. *)
Lemma while_loop_S (fuel : nat) (t : Q) (frame_count : Z) :
  (0 <= t)%Q ->
  while_loop world self (S fuel) t frame_count =
  if Py.ltb t (video_duration world self) then
    let body :=
      for_loop world self t
        (frame_indices (fps world self) (total_frames world self)
           (frame_interval world self) (frames_per_second self) t)
        frame_count in
    match snd body with
    | Done frame_count' =>
        (fst body
           ++ fst (while_loop world self fuel (t + frame_interval world self)%Q frame_count'),
         snd (while_loop world self fuel (t + frame_interval world self)%Q frame_count'))
    | Raised msg => (fst body, Raised msg)
    | OutOfFuel => (fst body, OutOfFuel)
    end
  else ([], Done frame_count).
Proof.
  intros Ht. cbn [while_loop].
  destruct (Py.ltb t (video_duration world self)) eqn:E; [|reflexivity].
  rewrite (interval_not_le_0 t Ht E). cbv zeta. unfold bind.
  destruct (for_loop world self t _ frame_count) as [l [c'| |]]; cbn [fst snd];
    try reflexivity.
  destruct (while_loop world self fuel _ c'). reflexivity.
Qed.

Lemma windows_S (fuel : nat) (t : Q) :
  (0 <= t)%Q ->
  windows world self (S fuel) t =
  if Py.ltb t (video_duration world self) then
    (t, frame_indices (fps world self) (total_frames world self)
          (frame_interval world self) (frames_per_second self) t)
    :: windows world self fuel (t + frame_interval world self)%Q
  else [].
Proof.
  intros Ht. cbn [windows].
  destruct (Py.ltb t (video_duration world self)) eqn:E; [|reflexivity].
  rewrite (interval_not_le_0 t Ht E). reflexivity.
Qed.

Lemma next_window_nonneg (t : Q) :
  (0 <= t)%Q -> Py.ltb t (video_duration world self) = true ->
  (0 <= t + frame_interval world self)%Q /\ (t <= t + frame_interval world self)%Q.
Proof.
  intros Ht Hlt. apply ltb_lt in Hlt.
  destruct (duration_pos (Qle_lt_trans _ _ _ Ht Hlt)) as (_ & _ & Hi & _).
  apply Qlt_le_weak in Hi. split.
  - replace 0%Q with (0 + 0)%Q by reflexivity. apply Qplus_le_compat; assumption.
  - rewrite <- (Qplus_0_r t) at 1. apply Qplus_le_compat; [apply Qle_refl | exact Hi].
Qed.


(** *** Fuel *)

Lemma while_loop_fuel (fuel : nat) (t : Q) (frame_count : Z) :
  (0 <= t)%Q ->
  (video_duration world self
   <= t + inject_Z (Z.of_nat fuel) * frame_interval world self)%Q ->
  snd (while_loop world self fuel t frame_count) <> OutOfFuel.
Proof.
  revert t frame_count. induction fuel as [|fuel IH]; intros t c Ht Hd.
  - cbn [while_loop].
    destruct (Py.ltb t (video_duration world self)) eqn:E; [|discriminate].
    apply ltb_lt in E. exfalso. apply (Qlt_not_le _ _ E).
    eapply Qle_trans; [exact Hd|]. cbn [Z.of_nat].
    rewrite Qmult_0_l, Qplus_0_r. apply Qle_refl.
  - rewrite while_loop_S by exact Ht.
    destruct (Py.ltb t (video_duration world self)) eqn:E; [|discriminate].
    cbv zeta.
    destruct (snd (for_loop world self t _ c)) as [c'| |] eqn:Eb; cbn [snd].
    + apply IH; [apply next_window_nonneg; assumption|].
      eapply Qle_trans; [exact Hd|].
      rewrite Nat2Z.inj_succ. unfold Z.succ. rewrite inject_Z_plus.
      apply Qle_lteq. right. ring.
    + discriminate.
    + exfalso. exact (for_loop_fuel _ _ _ Eb).
Qed.

Lemma iterations_enough :
  (video_duration world self
   <= 0 + inject_Z (Z.of_nat (iterations world self)) * frame_interval world self)%Q.
Proof.
  unfold iterations.
  destruct (Py.ltb 0 (frame_interval world self)) eqn:Ei.
  - apply ltb_lt in Ei. rewrite Qplus_0_l.
    set (n := Qceiling (video_duration world self / frame_interval world self)).
    assert (Hn : (video_duration world self / frame_interval world self
                  <= inject_Z (Z.of_nat (Z.to_nat n)))%Q).
    { eapply Qle_trans; [apply Qle_ceiling|]. fold n.
      rewrite <- Zle_Qle. lia. }
    apply (Qmult_le_compat_r _ _ (frame_interval world self)) in Hn;
      [|apply Qlt_le_weak; exact Ei].
    eapply Qle_trans; [|exact Hn].
    apply Qle_lteq. right. field.
    intros H. rewrite H in Ei. exact (Qlt_irrefl 0 Ei).
  - apply ltb_ge in Ei. unfold frame_interval in *.
    destruct (Py.ltb 0 (interval_seconds self)) eqn:Es.
    + apply ltb_lt in Es. exfalso. exact (Qlt_not_le _ _ Es Ei).
    + apply Qle_lteq. right. change (inject_Z (Z.of_nat 1)) with 1%Q. ring.
Qed.



(** Every window of the loop starts at a time in [[t, video_duration)] and
    carries the indices computed for that time. *)
Lemma windows_In (fuel : nat) (t u : Q) (indices : list Z) :
  (0 <= t)%Q ->
  In (u, indices) (windows world self fuel t) ->
  (t <= u)%Q /\ (u < video_duration world self)%Q /\
  indices = frame_indices (fps world self) (total_frames world self)
              (frame_interval world self) (frames_per_second self) u.
Proof.
  revert t. induction fuel as [|fuel IH]; intros t Ht Hin.
  - cbn [windows] in Hin. destruct (Py.ltb _ _); destruct Hin.
  - rewrite windows_S in Hin by exact Ht.
    destruct (Py.ltb t (video_duration world self)) eqn:E; [|destruct Hin].
    destruct Hin as [Heq|Hin].
    + injection Heq as <- <-. split; [apply Qle_refl|].
      split; [apply ltb_lt; exact E | reflexivity].
    + destruct (next_window_nonneg t Ht E) as [H0 H1].
      destruct (IH _ H0 Hin) as (Hle & Hlt & Hidx).
      split; [eapply Qle_trans; eassumption|]. split; assumption.
Qed.

End LoopFacts.

(** ** Logs of the loops *)

Lemma progress_values_app (l1 l2 : list effect) :
  progress_values (l1 ++ l2) = progress_values l1 ++ progress_values l2.
Proof. apply flat_map_app. Qed.

Lemma reads_app (l1 l2 : list effect) : reads (l1 ++ l2) = reads l1 ++ reads l2.
Proof. apply flat_map_app. Qed.

Lemma attempted_paths_app (l1 l2 : list effect) :
  attempted_paths (l1 ++ l2) = attempted_paths l1 ++ attempted_paths l2.
Proof. apply flat_map_app. Qed.

Lemma signals_app (l1 l2 : list effect) : signals (l1 ++ l2) = signals l1 ++ signals l2.
Proof. apply filter_app. Qed.

Lemma sorted_repeat_app (x : Z) (k : nat) (ps : list Z) :
  StronglySorted Z.le ps -> Forall (fun p => x <= p) ps ->
  StronglySorted Z.le (repeat x k ++ ps).
Proof.
  intros Hs Hx. induction k as [|k IH]; simpl; [exact Hs|].
  constructor; [exact IH|].
  apply Forall_app. split; [|exact Hx].
  apply Forall_forall. intros p Hp. apply repeat_spec in Hp. lia.
Qed.

Section LogFacts.

Variable world : World.
Variable self : FrameExtractorThread.

Lemma loop_log_signals (l : list effect) :
  loop_log world self l -> signals l = map E_progress (progress_values l).
Proof.
  induction 1 as [|e l [t He] _ IH]; [reflexivity|].
  destruct e; cbn in *; try contradiction; try exact IH.
  f_equal. exact IH.
Qed.

Lemma loop_log_no_release (l : list effect) :
  loop_log world self l -> ~ In E_release l.
Proof.
  intros H Hin. unfold loop_log in H. rewrite Forall_forall in H.
  destruct (H _ Hin) as [t Ht]. exact Ht.
Qed.

Lemma loop_log_no_makedirs (l : list effect) (p : string) :
  loop_log world self l -> ~ In (E_makedirs p) l.
Proof.
  intros H Hin. unfold loop_log in H. rewrite Forall_forall in H.
  destruct (H _ Hin) as [t Ht]. exact Ht.
Qed.

Lemma progress_values_repeat (t : Q) (l : list effect) :
  Forall (loop_effect world self t) l ->
  progress_values l
  = repeat (progress_percent world self t) (List.length (progress_values l)).
Proof.
  induction 1 as [|e l He _ IH]; [reflexivity|].
  destruct e; cbn in *; try contradiction; try exact IH.
  rewrite He at 1. f_equal. exact IH.
Qed.

Lemma for_loop_log (t : Q) (indices : list Z) (frame_count : Z) :
  loop_log world self (fst (for_loop world self t indices frame_count)).
Proof.
  eapply Forall_impl; [|apply for_loop_effects].
  intros e He. exists t. exact He.
Qed.

Lemma while_loop_log (fuel : nat) (t : Q) (frame_count : Z) :
  (0 <= t)%Q ->
  loop_log world self (fst (while_loop world self fuel t frame_count)).
Proof.
  revert t frame_count. induction fuel as [|fuel IH]; intros t c Ht.
  - cbn [while_loop]. destruct (Py.ltb _ _); constructor.
  - rewrite while_loop_S by exact Ht.
    destruct (Py.ltb t (video_duration world self)) eqn:E; [|constructor].
    cbv zeta.
    destruct (snd (for_loop world self t _ c)) as [c'| |]; cbn [fst];
      try apply for_loop_log.
    apply Forall_app. split; [apply for_loop_log|].
    apply IH. apply next_window_nonneg; assumption.
Qed.

(** *** Progress *)

Lemma progress_percent_mono (t u : Q) :
  (0 <= t)%Q -> (t <= u)%Q ->
  progress_percent world self t <= progress_percent world self u.
Proof.
  intros Ht Htu. unfold progress_percent.
  destruct (Py.ltb 0 (video_duration world self)) eqn:Ed; [|lia].
  apply ltb_lt in Ed.
  assert (Hinv : (0 <= / video_duration world self)%Q).
  { apply Qinv_le_0_compat. apply Qlt_le_weak. exact Ed. }
  assert (Hmono : forall a b, (0 <= a)%Q -> (a <= b)%Q ->
            (0 <= a / video_duration world self * 100)%Q /\
            (a / video_duration world self * 100
             <= b / video_duration world self * 100)%Q).
  { intros a b Ha Hab. split.
    - apply Qmult_le_0_compat; [|discriminate].
      apply Qmult_le_0_compat; assumption.
    - apply Qmult_le_compat_r; [|discriminate].
      apply Qmult_le_compat_r; assumption. }
  destruct (Hmono t u Ht Htu) as [H0 H1].
  rewrite !int_nonneg.
  - apply Z.min_le_compat_r. apply Qfloor_resp_le. exact H1.
  - eapply Qle_trans; eassumption.
  - exact H0.
Qed.

(** Line 165 computes [floor(100 * t / duration)], and the value sent lies
    in [[0, 100]]. *)
Lemma progress_percent_floor (t : Q) :
  (0 <= t)%Q -> (0 < video_duration world self)%Q ->
  progress_percent world self t
  = Z.max 0 (Z.min 100 (Qfloor (100 * t / video_duration world self))).
Proof.
  intros Ht Hd. unfold progress_percent.
  destruct (Py.ltb 0 (video_duration world self)) eqn:Ed;
    [|apply ltb_ge in Ed; exfalso; exact (Qlt_not_le _ _ Hd Ed)].
  assert (H0 : (0 <= t / video_duration world self * 100)%Q).
  { apply Qmult_le_0_compat; [|discriminate].
    apply Qmult_le_0_compat; [exact Ht|].
    apply Qinv_le_0_compat. apply Qlt_le_weak. exact Hd. }
  rewrite int_nonneg by exact H0.
  assert (E : (t / video_duration world self * 100
               == 100 * t / video_duration world self)%Q).
  { unfold Qdiv. ring. }
  rewrite <- (Qfloor_comp _ _ E).
  pose proof (Qfloor_nonneg _ H0). lia.
Qed.

(** The progress values of the loop started at [t]: sorted, none below the
    percent of [t], and grouped window by window. *)
Lemma while_loop_progress (fuel : nat) (t : Q) (frame_count : Z) :
  (0 <= t)%Q ->
  let ps := progress_values (fst (while_loop world self fuel t frame_count)) in
  StronglySorted Z.le ps /\
  Forall (fun p => progress_percent world self t <= p) ps /\
  exists counts : list nat,
    ps = flat_map (fun wk => repeat (progress_percent world self (fst (fst wk))) (snd wk))
                  (combine (windows world self fuel t) counts).
Proof.
  revert t frame_count. induction fuel as [|fuel IH]; intros t c Ht; cbv zeta.
  - cbn [while_loop windows]. destruct (Py.ltb _ _); cbn;
      (split; [constructor | split; [constructor | exists []; reflexivity]]).
  - rewrite while_loop_S, windows_S by exact Ht.
    destruct (Py.ltb t (video_duration world self)) eqn:E;
      [|cbn; split; [constructor | split; [constructor | exists []; reflexivity]]].
    cbv zeta.
    set (body := for_loop world self t _ c).
    pose proof (progress_values_repeat t (fst body) (for_loop_effects _ _ _ _ _)) as Hb.
    set (k := List.length (progress_values (fst body))) in Hb.
    destruct (next_window_nonneg world self t Ht E) as [H0 H1].
    assert (Hone : forall l, progress_values l = repeat (progress_percent world self t) k ->
              progress_values l
              = flat_map (fun wk => repeat (progress_percent world self (fst (fst wk))) (snd wk))
                  (combine ((t, frame_indices (fps world self) (total_frames world self)
                                  (frame_interval world self) (frames_per_second self) t)
                            :: windows world self fuel (t + frame_interval world self)%Q)
                           [k])).
    { intros l ->. cbn. destruct (windows _ _ _ _); cbn; rewrite app_nil_r; reflexivity. }
    assert (Hrep : StronglySorted Z.le (repeat (progress_percent world self t) k) /\
                   Forall (fun p => progress_percent world self t <= p)
                          (repeat (progress_percent world self t) k)).
    { split.
      - rewrite <- (app_nil_r (repeat _ k)). apply sorted_repeat_app; constructor.
      - apply Forall_forall. intros p Hp. apply repeat_spec in Hp. lia. }
    destruct (snd body) as [c'| |]; cbn [fst].
    + destruct (IH _ c' H0) as (Hs & Hlo & counts & Hc).
      rewrite progress_values_app, Hb.
      pose proof (progress_percent_mono t _ Ht H1) as Hm.
      assert (Hlo' : Forall (fun p => progress_percent world self t <= p)
                (progress_values (fst (while_loop world self fuel
                   (t + frame_interval world self)%Q c')))).
      { eapply Forall_impl; [|exact Hlo]. cbv beta. intros p Hp. lia. }
      split; [apply sorted_repeat_app; assumption|].
      split; [apply Forall_app; split; [apply Hrep | exact Hlo']|].
      exists (k :: counts). cbn [combine flat_map fst snd]. rewrite <- Hc. reflexivity.
    + rewrite Hb at 1 2. split; [apply Hrep|]. split; [apply Hrep|].
      exists [k]. apply Hone. exact Hb.
    + rewrite Hb at 1 2. split; [apply Hrep|]. split; [apply Hrep|].
      exists [k]. apply Hone. exact Hb.
Qed.

End LogFacts.

(** ** The plan and the reads *)

Lemma sorted_app (l1 l2 : list Z) (m : Z) :
  StronglySorted Z.le l1 -> StronglySorted Z.le l2 ->
  Forall (fun i => i <= m) l1 -> Forall (fun i => m <= i) l2 ->
  StronglySorted Z.le (l1 ++ l2).
Proof.
  intros H1 H2 Hhi Hlo. induction H1 as [|a l1 Hs IH Ha]; simpl; [exact H2|].
  inversion Hhi; subst. constructor; [apply IH; assumption|].
  apply Forall_app. split; [exact Ha|].
  eapply Forall_impl; [|exact Hlo]. cbv beta. intros i Hi. lia.
Qed.

Lemma plan_indices (ws : list (Q * list Z)) :
  map snd (flat_map (fun w => map (pair (fst w)) (snd w)) ws) = flat_map snd ws.
Proof.
  induction ws as [|[t l] ws IH]; [reflexivity|].
  cbn [flat_map fst snd]. rewrite map_app, IH, map_map. cbn [snd].
  rewrite map_id. reflexivity.
Qed.

Section PlanFacts.

Variable world : World.
Variable self : FrameExtractorThread.

Lemma windows_sorted (fuel : nat) (t : Q) :
  (0 <= t)%Q ->
  StronglySorted Z.le (flat_map snd (windows world self fuel t)) /\
  Forall (fun i => Spec.startFrame (fps world self) t <= i)
         (flat_map snd (windows world self fuel t)).
Proof.
  revert t. induction fuel as [|fuel IH]; intros t Ht.
  - cbn [windows]. destruct (Py.ltb _ _); split; constructor.
  - rewrite windows_S by exact Ht.
    destruct (Py.ltb t (video_duration world self)) eqn:E; [|split; constructor].
    destruct (next_window_nonneg world self t Ht E) as [H0 H1].
    apply ltb_lt in E.
    destruct (duration_pos world self (Qle_lt_trans _ _ _ Ht E)) as (Hfps & Htot & Hi & _).
    destruct (IH _ H0) as [IHs IHlo].
    pose proof (frame_indices_range (fps world self) (total_frames world self)
                  (frame_interval world self) (frames_per_second self)
                  Hfps Hi t Ht) as Hrange.
    pose proof (frame_indices_sorted (fps world self) (total_frames world self)
                  (frame_interval world self) (frames_per_second self)
                  Hfps Hi t Ht) as Hsorted.
    cbn [flat_map snd]. split.
    + eapply sorted_app; [exact Hsorted | exact IHs | | exact IHlo].
      eapply Forall_impl; [|exact Hrange]. cbv beta. intros i Hi'. lia.
    + apply Forall_app. split.
      * eapply Forall_impl; [|exact Hrange]. cbv beta. intros i Hi'. lia.
      * eapply Forall_impl; [|exact IHlo]. cbv beta. intros i Hi'.
        pose proof (startFrame_mono (fps world self) Hfps _ _ H1). lia.
Qed.

Lemma while_loop_reads (fuel : nat) (t : Q) (frame_count : Z) :
  (0 <= t)%Q -> no_exception world self ->
  reads (fst (while_loop world self fuel t frame_count))
  = flat_map (fun w => visited (cap world self) (snd w)) (windows world self fuel t) /\
  (snd (while_loop world self fuel t frame_count) <> OutOfFuel ->
   exists frame_count', snd (while_loop world self fuel t frame_count) = Done frame_count').
Proof.
  intros Ht Hne. revert t frame_count Ht.
  induction fuel as [|fuel IH]; intros t c Ht.
  - cbn [while_loop windows]. destruct (Py.ltb _ _); cbn.
    + split; [reflexivity | congruence].
    + split; [reflexivity | eexists; reflexivity].
  - rewrite while_loop_S, windows_S by exact Ht.
    destruct (Py.ltb t (video_duration world self)) eqn:E;
      [|split; [reflexivity | eexists; reflexivity]].
    cbv zeta.
    destruct (for_loop_reads world self t
                (frame_indices (fps world self) (total_frames world self)
                   (frame_interval world self) (frames_per_second self) t)
                c Hne) as [Hr [c' Hc']].
    rewrite Hc'. cbn [fst snd flat_map].
    destruct (IH _ c' (proj1 (next_window_nonneg world self t Ht E))) as [IH1 IH2].
    rewrite reads_app, Hr, IH1. split; [reflexivity | exact IH2].
Qed.

(** *** File names *)

Lemma paths_from_app (c : Z) (ts us : list Q) :
  paths_from self c (ts ++ us)
  = paths_from self c ts ++ paths_from self (c + Z.of_nat (List.length ts)) us.
Proof.
  revert c. induction ts as [|t ts IH]; intros c.
  - cbn. rewrite Z.add_0_r. reflexivity.
  - cbn [app paths_from List.length]. rewrite IH. cbn [app].
    do 3 f_equal. lia.
Qed.

Lemma paths_from_repeat (c : Z) (t : Q) (n : nat) :
  paths_from self c (repeat t n)
  = map (fun k => path_of self (c + Z.of_nat k) t) (seq 0 n).
Proof.
  revert c. induction n as [|n IH]; intros c; [reflexivity|].
  cbn [repeat paths_from seq map]. rewrite Z.add_0_r. f_equal.
  rewrite IH, <- seq_shift, map_map. apply map_ext. intros k. f_equal. lia.
Qed.

(** The [cv2.imwrite] calls of the loops use the counter values
    [frame_count, frame_count + 1, ...] in this order, each with the start
    time of a window of the loop, and the loop returns the counter advanced
    by the number of calls. *)
Lemma while_loop_counter (fuel : nat) (t : Q) (frame_count : Z) :
  (0 <= t)%Q ->
  exists ts : list Q,
    attempted_paths (fst (while_loop world self fuel t frame_count))
    = paths_from self frame_count ts /\
    incl ts (map fst (windows world self fuel t)) /\
    forall frame_count',
      snd (while_loop world self fuel t frame_count) = Done frame_count' ->
      frame_count' = frame_count + Z.of_nat (List.length ts).
Proof.
  revert t frame_count. induction fuel as [|fuel IH]; intros t c Ht.
  - exists []. cbn [while_loop windows]. destruct (Py.ltb _ _); cbn.
    + split; [reflexivity|]. split; [apply incl_refl | discriminate].
    + split; [reflexivity|]. split; [apply incl_refl|]. intros c' [= <-]. lia.
  - rewrite while_loop_S, windows_S by exact Ht.
    destruct (Py.ltb t (video_duration world self)) eqn:E.
    2:{ exists []. cbn. split; [reflexivity|]. split; [apply incl_refl|].
        intros c' [= <-]. lia. }
    cbv zeta.
    destruct (for_loop_counter world self t
                (frame_indices (fps world self) (total_frames world self)
                   (frame_interval world self) (frames_per_second self) t) c)
      as [Hp Hc].
    set (body := for_loop world self t _ c) in *.
    set (n := List.length (attempted_paths (fst body))) in *.
    rewrite <- paths_from_repeat in Hp.
    assert (Hincl : incl (repeat t n)
              (map fst ((t, frame_indices (fps world self) (total_frames world self)
                             (frame_interval world self) (frames_per_second self) t)
                        :: windows world self fuel (t + frame_interval world self)%Q))).
    { intros u Hu. apply repeat_spec in Hu. subst u. left. reflexivity. }
    destruct (snd body) as [c'| |] eqn:Eb; cbn [fst snd].
    + destruct (IH _ c' (proj1 (next_window_nonneg world self t Ht E)))
        as (ts & Hts & Hin & Hdone).
      pose proof (Hc c' eq_refl) as Hc'.
      exists (repeat t n ++ ts).
      rewrite attempted_paths_app, paths_from_app, Hp, Hts, repeat_length, <- Hc'.
      split; [reflexivity|]. split.
      * apply incl_app; [exact Hincl|].
        intros u Hu. right. apply Hin. exact Hu.
      * intros c'' Hc''. rewrite (Hdone c'' Hc''), length_app, repeat_length. lia.
    + exists (repeat t n). split; [exact Hp|]. split; [exact Hincl | discriminate].
    + exists (repeat t n). split; [exact Hp|]. split; [exact Hincl | discriminate].
Qed.

End PlanFacts.

(** ** The whole run *)


Lemma sorted_app_le (l1 l2 : list Z) :
  StronglySorted Z.le (l1 ++ l2) ->
  forall a b, In a l1 -> In b l2 -> a <= b.
Proof.
  induction l1 as [|x l1 IH]; intros Hs a b Ha Hb; [destruct Ha|].
  cbn [app] in Hs. inversion Hs as [|? ? Hs' Hall]; subst.
  destruct Ha as [<-|Ha].
  - rewrite Forall_forall in Hall. apply Hall. apply in_or_app. right. exact Hb.
  - apply IH; assumption.
Qed.

Section RunFacts.

Variable world : World.
Variable self : FrameExtractorThread.

(** [run], path by path. *)
Lemma run_fuel_eq (fuel : nat) :
  run_fuel world self fuel =
  if negb (isOpened (cap world self)) then
    ([E_error ("Failed to open video: " ++ video_path self)], Done tt)
  else
    match os_makedirs world (output_dir self) with
    | Exc msg => ([E_error ("Error extracting frames: " ++ msg)], Done tt)
    | Ok _ =>
        let loop := while_loop world self fuel 0%Q 0 in
        match snd loop with
        | Done frame_count =>
            (E_makedirs (output_dir self)
               :: fst loop ++ [E_release; E_finished frame_count], Done tt)
        | Raised msg =>
            (E_makedirs (output_dir self)
               :: fst loop ++ [E_error ("Error extracting frames: " ++ msg)], Done tt)
        | OutOfFuel => (E_makedirs (output_dir self) :: fst loop, OutOfFuel)
        end
    end.
Proof.
  unfold run_fuel, run_try.
  destruct (negb (isOpened (cap world self))); [reflexivity|].
  unfold call, bind, emit, try_except.
  destruct (os_makedirs world (output_dir self)) as [u|msg]; [|reflexivity].
  cbv zeta.
  destruct (while_loop world self fuel 0%Q 0) as [l [c| |]]; cbn [fst snd app];
    reflexivity.
Qed.

Lemma run_while_fuel :
  snd (while_loop world self (iterations world self) 0%Q 0) <> OutOfFuel.
Proof.
  apply while_loop_fuel; [apply Qle_refl | apply iterations_enough].
Qed.

End RunFacts.

(** * The claims about the worker *)

(** C10.  If opening the video fails, the worker emits the error event and
    returns: the whole log is that one signal, so no directory is created
    and no file is written. *)
Theorem open_failure_touches_no_disk :
  forall (world : World) (self : FrameExtractorThread),
    isOpened (cap world self) = false ->
    run world self = ([E_error ("Failed to open video: " ++ video_path self)], Done tt) /\
    Forall (fun e => touches_disk e = false) (fst (run world self)).
Proof.
  intros world self Hopen.
  assert (E : run world self
              = ([E_error ("Failed to open video: " ++ video_path self)], Done tt)).
  { unfold run. rewrite run_fuel_eq, Hopen. reflexivity. }
  split; [exact E|]. rewrite E. repeat constructor.
Qed.

Lemma open_failure_touches_no_disk_witness :
  run (Sample.disk Sample.broken) (Sample.job 1 1 None)
  = ([E_error "Failed to open video: v.mp4"], Done tt).
Proof.
  exact (proj1 (open_failure_touches_no_disk
                  (Sample.disk Sample.broken) (Sample.job 1 1 None) eq_refl)).
Defined.



(** C2.  When no external call raises, the frames read are, window after
    window, the planned indices of the window up to and including the first
    one whose read fails: a failed read skips the rest of its own window
    only.  Such a run ends with [release] and the completed event and holds
    no error event. *)
Theorem failed_read_skips_rest_of_window_only :
  forall (world : World) (self : FrameExtractorThread),
    isOpened (cap world self) = true ->
    no_exception world self ->
    reads (fst (run world self))
    = flat_map (fun w => visited (cap world self) (snd w))
               (windows world self (iterations world self) 0%Q) /\
    (exists log frame_count,
        fst (run world self)
        = E_makedirs (output_dir self) :: log ++ [E_release; E_finished frame_count] /\
        loop_log world self log) /\
    (forall msg, ~ In (E_error msg) (fst (run world self))).
Proof.
  intros world self Hopen Hne.
  destruct (while_loop_reads world self (iterations world self) 0%Q 0
              (Qle_refl 0) Hne) as [Hreads Hdone].
  destruct (Hdone (run_while_fuel world self)) as [c Hc].
  pose proof (while_loop_log world self (iterations world self) 0%Q 0 (Qle_refl 0))
    as Hlog.
  assert (E : fst (run world self)
              = E_makedirs (output_dir self)
                  :: fst (while_loop world self (iterations world self) 0%Q 0)
                  ++ [E_release; E_finished c]).
  { unfold run. rewrite run_fuel_eq, Hopen. cbn [negb].
    destruct Hne as (_ & Hmk & _).
    destruct (os_makedirs world (output_dir self)) as [u|msg];
      [|exfalso; exact (Hmk msg eq_refl)].
    cbv zeta. rewrite Hc. reflexivity. }
  split; [|split].
  - rewrite E. cbn [reads flat_map app].
    fold (reads (fst (while_loop world self (iterations world self) 0%Q 0)
                 ++ [E_release; E_finished c])).
    rewrite reads_app, Hreads. cbn. apply app_nil_r.
  - exists (fst (while_loop world self (iterations world self) 0%Q 0)), c.
    split; [exact E | exact Hlog].
  - intros msg Hin. rewrite E in Hin.
    destruct Hin as [Hin|Hin]; [discriminate|].
    apply in_app_or in Hin. destruct Hin as [Hin|[Hin|[Hin|[]]]]; try discriminate.
    unfold loop_log in Hlog. rewrite Forall_forall in Hlog.
    destruct (Hlog _ Hin) as [t Ht]. exact Ht.
Qed.

Lemma sample_no_exception (c : VideoCapture) (self : FrameExtractorThread) :
  (forall idx msg, read c idx <> Exc msg) ->
  no_exception (Sample.disk c) self.
Proof.
  intros H. split; [exact H|]. split; discriminate.
Defined.

Lemma failed_read_skips_rest_of_window_only_witness :
  reads (fst (run (Sample.disk Sample.clip) (Sample.job 3 1 None))) = [0; 1; 3; 4; 5] /\
  windows (Sample.disk Sample.clip) (Sample.job 3 1 None)
          (iterations (Sample.disk Sample.clip) (Sample.job 3 1 None)) 0%Q
  = [(0%Q, [0; 1; 2]); (3%Q, [3; 4; 5])].
Proof.
  split; [|reflexivity].
  refine (eq_trans (proj1 (failed_read_skips_rest_of_window_only
                    (Sample.disk Sample.clip) (Sample.job 3 1 None) eq_refl
                    (sample_no_exception _ _ _))) _).
  - intros idx msg. cbn. destruct (idx =? 1); discriminate.
  - reflexivity.
Defined.


(** C9.  The frame indices of the whole sampling plan are non-decreasing,
    across window boundaries too: every index of a window is at least every
    index of every earlier window. *)
Theorem plan_indices_non_decreasing :
  forall (world : World) (self : FrameExtractorThread),
    StronglySorted Z.le (map snd (sampling_plan world self)) /\
    forall earlier w later,
      windows world self (iterations world self) 0%Q = earlier ++ w :: later ->
      forall i j, In i (flat_map snd earlier) -> In j (snd w) -> i <= j.
Proof.
  intros world self.
  destruct (windows_sorted world self (iterations world self) 0%Q (Qle_refl 0))
    as [Hsorted _].
  split.
  - unfold sampling_plan. rewrite plan_indices. exact Hsorted.
  - intros earlier w later E i j Hi Hj. rewrite E in Hsorted.
    rewrite flat_map_app in Hsorted. cbn [flat_map] in Hsorted.
    eapply sorted_app_le; [exact Hsorted | exact Hi|].
    apply in_or_app. left. exact Hj.
Qed.

Lemma plan_indices_non_decreasing_witness :
  windows (Sample.disk Sample.clip) (Sample.job 3 1 None)
          (iterations (Sample.disk Sample.clip) (Sample.job 3 1 None)) 0%Q
  = [(0%Q, [0; 1; 2])] ++ (3%Q, [3; 4; 5]) :: [] /\
  2 <= 3.
Proof.
  split; [reflexivity|].
  apply (proj2 (plan_indices_non_decreasing
                  (Sample.disk Sample.clip) (Sample.job 3 1 None))
           [(0%Q, [0; 1; 2])] (3%Q, [3; 4; 5]) [] eq_refl 2 3).
  - cbn. right. right. left. reflexivity.
  - cbn. left. reflexivity.
Defined.

(** * The claims about one window *)




(** The window with [0 < min(density * effectiveInterval, endFrame -
    startFrame) < 1]: a half-second video sampled with interval 0.5 and
    density 1 yields no index at all. *)
Lemma fractional_target_yields_nothing :
  frame_indices 30 15 (1 # 2) 1 0 = [] /\
  Spec.target 30 15 (1 # 2) 1 0 = 0 /\
  Spec.startFrame 30 0 < 15.
Proof. repeat split. Qed.


(** * The claims about the cropper *)

Lemma run_writes_nonempty (world : World) (self : FrameExtractorThread) :
  Forall (fun e => match e with
                   | E_imwrite _ img _ => 0 < frame_size img
                   | _ => True
                   end)
         (fst (run world self)).
Proof.
  pose proof (while_loop_log world self (iterations world self) 0%Q 0 (Qle_refl 0))
    as Hlog.
  assert (Hloop : Forall (fun e => match e with
                                   | E_imwrite _ img _ => 0 < frame_size img
                                   | _ => True
                                   end)
                         (fst (while_loop world self (iterations world self) 0%Q 0))).
  { eapply Forall_impl; [|exact Hlog]. intros e [t He].
    destruct e; try exact I. exact He. }
  unfold run. rewrite run_fuel_eq.
  destruct (negb (isOpened (cap world self))); [repeat constructor|].
  destruct (os_makedirs world (output_dir self)); [|repeat constructor].
  cbv zeta.
  destruct (snd (while_loop world self (iterations world self) 0%Q 0)); cbn [fst];
    constructor; try exact I; try exact Hloop;
    (apply Forall_app; split; [exact Hloop | repeat constructor]).
Qed.

(** C5.  The cropper re-clamps the ROI against the actual frame width and
    height ([x] to [0..width-1], [y] to [0..height-1], the width to
    [width - x], the height to [height - y]); when the clamped ROI has
    positive width and height the result is exactly that sub-rectangle of
    the frame, otherwise the full frame is returned; in both cases the
    result is not empty.  Whatever the decoder returns, no run hands an
    empty image to [cv2.imwrite].  ROI (190,90,50,50) on a 200x100 video is
    clamped to (190,90,10,10). *)
Theorem crop_reclamps_and_never_empties :
  (forall (f : frame) (video_width video_height : Z) (r : option ROI),
     has_shape f video_height video_width ->
     0 < video_width -> 0 < video_height ->
     let '(x, y, w, h) := clamp_roi r video_width video_height in
     (forall rx ry rw rh, r = Some (rx, ry, rw, rh) ->
        x = Z.max 0 (Z.min rx (video_width - 1)) /\
        y = Z.max 0 (Z.min ry (video_height - 1)) /\
        w = Z.min rw (video_width - x) /\
        h = Z.min rh (video_height - y)) /\
     (r <> None -> 0 < w -> 0 < h ->
        has_shape (crop f video_width video_height r) h w /\
        forall i j d, 0 <= i < h -> 0 <= j < w ->
          nth (Z.to_nat j) (nth (Z.to_nat i) (crop f video_width video_height r) []) d
          = nth (Z.to_nat (x + j)) (nth (Z.to_nat (y + i)) f []) d) /\
     (r = None \/ w <= 0 \/ h <= 0 -> crop f video_width video_height r = f) /\
     0 < frame_size (crop f video_width video_height r)) /\
  (forall (world : World) (self : FrameExtractorThread),
     Forall (fun e => match e with
                      | E_imwrite _ img _ => 0 < frame_size img
                      | _ => True
                      end)
            (fst (run world self))) /\
  clamp_roi (Some (190, 90, 50, 50)) 200 100 = (190, 90, 10, 10).
Proof.
  split; [|split; [exact run_writes_nonempty | reflexivity]].
  intros f vw vh r Hf Hw Hh.
  destruct r as [[[[rx ry] rw] rh]|].
  - pose proof (clamp_roi_bounds (rx, ry, rw, rh) vw vh Hw Hh) as Hb.
    unfold crop, clamp_roi in *. cbv beta iota zeta in *.
    set (x := Z.max 0 (Z.min rx (vw - 1))) in *.
    set (y := Z.max 0 (Z.min ry (vh - 1))) in *.
    set (w := Z.min rw (vw - x)) in *.
    set (h := Z.min rh (vh - y)) in *.
    destruct Hb as (Hx & Hy & Hxw & Hyh).
    assert (Hcrop : forall r : option ROI, is_some r = true -> 0 < w -> 0 < h ->
              apply_roi r (x, y, w, h) f = frame_slice y (y + h) x (x + w) f).
    { intros r Hr H1 H2. unfold apply_roi.
      apply Z.ltb_lt in H1, H2. rewrite Hr, H1, H2. reflexivity. }
    assert (Hfull : forall r : option ROI, w <= 0 \/ h <= 0 ->
              apply_roi r (x, y, w, h) f = f).
    { intros r H. unfold apply_roi.
      destruct (0 <? w) eqn:E1; [|rewrite andb_false_r; reflexivity].
      destruct (0 <? h) eqn:E2; [|rewrite andb_false_r; reflexivity].
      apply Z.ltb_lt in E1, E2. lia. }
    split; [|split; [|split]].
    + intros ? ? ? ? E. injection E as <- <- <- <-. repeat split.
    + intros _ Hw0 Hh0. rewrite Hcrop by (assumption || reflexivity). split.
      * eapply frame_slice_shape; eauto; lia.
      * intros i j d Hi Hj. eapply frame_slice_pixel; eauto; lia.
    + intros [H|H]; [discriminate|]. apply Hfull. exact H.
    + destruct (Z_lt_le_dec 0 w) as [Hw0|Hw0];
        [destruct (Z_lt_le_dec 0 h) as [Hh0|Hh0]|].
      * rewrite Hcrop by (assumption || reflexivity).
        rewrite (frame_size_shape _ h w)
          by (eapply frame_slice_shape; eauto; lia).
        nia.
      * rewrite Hfull by (right; exact Hh0).
        rewrite (frame_size_shape f vh vw Hf). nia.
      * rewrite Hfull by (left; exact Hw0).
        rewrite (frame_size_shape f vh vw Hf). nia.
  - unfold crop, clamp_roi, apply_roi. cbv beta iota zeta. cbn [is_some andb].
    split; [|split; [|split]].
    + intros ? ? ? ? E. discriminate.
    + congruence.
    + reflexivity.
    + rewrite (frame_size_shape f vh vw Hf). nia.
Qed.

Lemma crop_reclamps_and_never_empties_witness :
  has_shape (Sample.blank 100 200) 100 200 /\
  has_shape (crop (Sample.blank 100 200) 200 100 (Some (190, 90, 50, 50))) 10 10 /\
  0 < frame_size (crop (Sample.blank 100 200) 200 100 (Some (190, 90, 50, 50))).
Proof.
  pose proof (blank_shape 100 200) as Hs.
  split; [exact Hs|].
  pose proof (proj1 crop_reclamps_and_never_empties
                (Sample.blank 100 200) 200 100 (Some (190, 90, 50, 50))
                Hs eq_refl eq_refl) as T.
  cbn [clamp_roi] in T.
  change (Z.max 0 (Z.min 190 (200 - 1))) with 190 in T.
  change (Z.max 0 (Z.min 90 (100 - 1))) with 90 in T.
  change (Z.min 50 (200 - 190)) with 10 in T.
  change (Z.min 50 (100 - 90)) with 10 in T.
  destruct T as (_ & T2 & _ & T4).
  split; [|exact T4].
  apply T2; [discriminate | reflexivity | reflexivity].
Defined.

(** * Where the code departs from its own intent *)

(** C3.  A run in which the decoder raises on frame 1: the error event is
    the last effect and the only terminal signal, but [cap.release()] is
    never called. *)
Theorem error_path_leaves_capture_open :
  run (Sample.disk Sample.faulty) (Sample.job 1 1 None)
  = ([E_makedirs "out";
      E_read 0;
      E_imwrite "out/frame_000000_t0.00s.jpg" (Sample.blank 2 2) true;
      E_progress 0;
      E_read 1;
      E_error "Error extracting frames: decoder fault"],
     Done tt) /\
  ~ In E_release (fst (run (Sample.disk Sample.faulty) (Sample.job 1 1 None))).
Proof.
  split; [reflexivity|].
  cbn. intros H. repeat (destruct H as [H|H]; [discriminate|]). exact H.
Qed.

(** The same, for every run: a log that holds an error event holds no
    [release]. *)
Lemma error_event_excludes_release :
  forall (world : World) (self : FrameExtractorThread) (msg : string),
    In (E_error msg) (fst (run world self)) ->
    ~ In E_release (fst (run world self)).
Proof.
  intros world self msg.
  pose proof (run_while_fuel world self) as Hfuel.
  pose proof (while_loop_log world self (iterations world self) 0%Q 0 (Qle_refl 0))
    as Hlog.
  unfold run. rewrite run_fuel_eq.
  destruct (negb (isOpened (cap world self))).
  { intros _ [H|[]]. discriminate. }
  destruct (os_makedirs world (output_dir self)) as [u|m].
  2:{ intros _ [H|[]]. discriminate. }
  cbv zeta.
  destruct (snd (while_loop world self (iterations world self) 0%Q 0))
    as [c|m|]; [| |congruence]; cbn [fst].
  - intros [H|H]; [discriminate|]. exfalso.
    apply in_app_or in H. destruct H as [H|[H|[H|[]]]]; try discriminate.
    unfold loop_log in Hlog. rewrite Forall_forall in Hlog.
    destruct (Hlog _ H) as [t Ht]. exact Ht.
  - intros _ [H|H]; [discriminate|].
    apply in_app_or in H. destruct H as [H|[H|[]]]; [|discriminate].
    exact (loop_log_no_release world self _ Hlog H).
Qed.

(** C7.  A run into a directory that cannot be written to, where
    [cv2.imwrite] returns [False] for every file: the counter advances all
    the same, and [finished] reports 2 although no file was written. *)
Theorem counter_advances_on_failed_write :
  run (Sample.read_only_disk Sample.short) (Sample.job 1 1 None)
  = ([E_makedirs "out";
      E_read 0;
      E_imwrite "out/frame_000000_t0.00s.jpg" (Sample.blank 2 2) false;
      E_progress 0;
      E_read 1;
      E_imwrite "out/frame_000001_t1.00s.jpg" (Sample.blank 2 2) false;
      E_progress 50;
      E_release;
      E_finished 2],
     Done tt) /\
  written_paths (fst (run (Sample.read_only_disk Sample.short) (Sample.job 1 1 None)))
  = [].
Proof. split; reflexivity. Qed.

(** What does hold in every run: the files handed to [cv2.imwrite] are
    named with the counters 0, 1, 2, ... in this order and with the start
    time of a window of the plan, and the completed event carries the
    number of these calls. *)
Lemma finished_counts_imwrite_calls :
  forall (world : World) (self : FrameExtractorThread) (n : Z),
    In (E_finished n) (fst (run world self)) ->
    exists ts : list Q,
      attempted_paths (fst (run world self)) = paths_from self 0 ts /\
      n = Z.of_nat (List.length ts) /\
      incl ts (map fst (windows world self (iterations world self) 0%Q)).
Proof.
  intros world self n.
  pose proof (while_loop_log world self (iterations world self) 0%Q 0 (Qle_refl 0))
    as Hlog.
  destruct (while_loop_counter world self (iterations world self) 0%Q 0 (Qle_refl 0))
    as (ts & Hpaths & Hincl & Hdone).
  unfold loop_log in Hlog. rewrite Forall_forall in Hlog.
  unfold run. rewrite run_fuel_eq.
  destruct (negb (isOpened (cap world self))).
  { intros [H|[]]. discriminate. }
  destruct (os_makedirs world (output_dir self)) as [u|m].
  2:{ intros [H|[]]. discriminate. }
  cbv zeta.
  destruct (snd (while_loop world self (iterations world self) 0%Q 0))
    as [c|m|] eqn:E; cbn [fst].
  - intros [H|H]; [discriminate|].
    apply in_app_or in H. destruct H as [H|[H|[H|[]]]]; try discriminate.
    + exfalso. destruct (Hlog _ H) as [t Ht]. exact Ht.
    + injection H as <-. exists ts.
      split; [|split; [rewrite (Hdone c eq_refl); lia | exact Hincl]].
      change (E_makedirs (output_dir self)
                :: fst (while_loop world self (iterations world self) 0%Q 0)
                ++ [E_release; E_finished c])
        with ([E_makedirs (output_dir self)]
                ++ fst (while_loop world self (iterations world self) 0%Q 0)
                ++ [E_release; E_finished c]).
      rewrite !attempted_paths_app, Hpaths. cbn. apply app_nil_r.
  - intros [H|H]; [discriminate|]. exfalso.
    apply in_app_or in H. destruct H as [H|[H|[]]]; [|discriminate].
    destruct (Hlog _ H) as [t Ht]. exact Ht.
  - intros [H|H]; [discriminate|]. exfalso.
    destruct (Hlog _ H) as [t Ht]. exact Ht.
Qed.

Example frame_filename_third_frame :
  frame_filename 2 (9 # 2) = "frame_000002_t4.50s.jpg"%string.
Proof. reflexivity. Qed.

Example linspace_0_29_6 : Np.linspace 0 29 6 = [0; 5; 11; 17; 23; 29].
Proof. reflexivity. Qed.

Example plan_10s_interval_2_density_3 :
  List.length (sampling_plan (Sample.disk Sample.movie) (Sample.job 2 3 None)) = 30%nat.
Proof. reflexivity. Qed.

(** * Further properties of the coordinate mapper *)

Lemma clamp_roi_idempotent (r : ROI) (video_width video_height : Z) :
  clamp_roi (Some (clamp_roi (Some r) video_width video_height)) video_width video_height
  = clamp_roi (Some r) video_width video_height.
Proof.
  destruct r as [[[x y] w] h]. unfold clamp_roi. cbv beta iota zeta.
  apply f_equal2; [apply f_equal2; [apply f_equal2|]|]; lia.
Qed.

Lemma scale_nonneg (a b : Z) : 0 <= a -> 0 < b -> (0 <= inject_Z a / inject_Z b)%Q.
Proof.
  intros Ha Hb. apply Qle_shift_div_l.
  - change 0%Q with (inject_Z 0). rewrite <- Zlt_Qlt. exact Hb.
  - rewrite Qmult_0_l. change 0%Q with (inject_Z 0). rewrite <- Zle_Qle. exact Ha.
Qed.

(** X1.  Whatever rectangle is drawn, the ROI that [on_roi_selected]
    assigns lies inside the video: its corner is a pixel of the frame and
    the rectangle does not reach beyond the right or the bottom edge; a
    rectangle of non-negative width and height keeps a non-negative width
    and height. *)
Theorem on_roi_selected_within_video :
  forall (d : Display) (x y width height : Z)
         (video_height video_width : Z) (rx ry rw rh : Z),
    current_frame d = Some (video_height, video_width) ->
    0 < video_width -> 0 < video_height ->
    on_roi_selected d x y width height = Some (rx, ry, rw, rh) ->
    0 <= rx < video_width /\ 0 <= ry < video_height /\
    rx + rw <= video_width /\ ry + rh <= video_height /\
    (0 <= width -> 0 <= rw) /\ (0 <= height -> 0 <= rh).
Proof.
  intros d x y width height vh vw rx ry rw rh Hf Hvw Hvh.
  unfold on_roi_selected. rewrite Hf.
  destruct (pixmap d) as [[pw ph]|]; [|discriminate].
  unfold Py.floordiv.
  set (x_adj := x - (fst (label_size d) - pw) / 2).
  set (y_adj := y - (snd (label_size d) - ph) / 2).
  destruct (x_adj <? 0) eqn:E1; [discriminate|].
  destruct (y_adj <? 0) eqn:E2; [discriminate|].
  destruct (pw <=? x_adj) eqn:E3; [discriminate|].
  destruct (ph <=? y_adj) eqn:E4; [discriminate|].
  cbn [orb]. apply Z.ltb_ge in E1, E2. apply Z.leb_gt in E3, E4.
  assert (Hpw : (0 <? pw) = true) by (apply Z.ltb_lt; lia).
  assert (Hph : (0 <? ph) = true) by (apply Z.ltb_lt; lia).
  rewrite Hpw, Hph. intros [= <- <- <- <-].
  assert (Hsx : (0 <= inject_Z vw / inject_Z pw)%Q) by (apply scale_nonneg; lia).
  assert (Hsy : (0 <= inject_Z vh / inject_Z ph)%Q) by (apply scale_nonneg; lia).
  repeat split; try lia.
  - intros Hw.
    assert (0 <= Py.int (inject_Z width * (inject_Z vw / inject_Z pw))).
    { assert (H : (0 <= inject_Z width * (inject_Z vw / inject_Z pw))%Q).
      { apply Qmult_le_0_compat; [|exact Hsx].
        change 0%Q with (inject_Z 0). rewrite <- Zle_Qle. exact Hw. }
      rewrite int_nonneg by exact H. apply Qfloor_nonneg. exact H. }
    lia.
  - intros Hh.
    assert (0 <= Py.int (inject_Z height * (inject_Z vh / inject_Z ph))).
    { assert (H : (0 <= inject_Z height * (inject_Z vh / inject_Z ph))%Q).
      { apply Qmult_le_0_compat; [|exact Hsy].
        change 0%Q with (inject_Z 0). rewrite <- Zle_Qle. exact Hh. }
      rewrite int_nonneg by exact H. apply Qfloor_nonneg. exact H. }
    lia.
Qed.

Lemma on_roi_selected_within_video_witness :
  0 <= 20 < 400 /\ 0 <= 10 < 300 /\ 20 + 50 <= 400 /\ 10 + 40 <= 300 /\
  (0 <= 100 -> 0 <= 50) /\ (0 <= 80 -> 0 <= 40).
Proof.
  exact (on_roi_selected_within_video
           {| current_frame := Some (300, 400); pixmap := Some (800, 600);
              label_size := (800, 600) |} 40 20 100 80
           300 400 20 10 50 40 eq_refl eq_refl eq_refl eq_refl).
Defined.

(** X2.  An ROI assigned by [on_roi_selected] passes the worker's own
    clamp (lines 118-126) unchanged when the worker opens a video of the
    same size: the worker crops to exactly the rectangle that was
    selected, or leaves the frame whole when its width or height is not
    positive. *)
Theorem selected_roi_survives_reclamp :
  forall (d : Display) (x y width height : Z)
         (video_height video_width : Z) (rx ry rw rh : Z) (f : frame),
    current_frame d = Some (video_height, video_width) ->
    on_roi_selected d x y width height = Some (rx, ry, rw, rh) ->
    clamp_roi (Some (rx, ry, rw, rh)) video_width video_height = (rx, ry, rw, rh) /\
    crop f video_width video_height (Some (rx, ry, rw, rh))
    = if (0 <? rw) && (0 <? rh)
      then frame_slice ry (ry + rh) rx (rx + rw) f
      else f.
Proof.
  intros d x y width height vh vw rx ry rw rh f Hf.
  unfold on_roi_selected. rewrite Hf.
  destruct (pixmap d) as [[pw ph]|]; [|discriminate].
  destruct (_ || _); [discriminate|].
  intros [= <- <- <- <-].
  match goal with
  | |- clamp_roi (Some ?r) _ _ = _ /\ _ =>
      assert (Hc : clamp_roi (Some r) vw vh = r)
  end.
  { unfold clamp_roi. cbv beta iota zeta.
    apply f_equal2; [apply f_equal2; [apply f_equal2|]|]; lia. }
  split; [exact Hc|].
  unfold crop. rewrite Hc. reflexivity.
Qed.

Lemma selected_roi_survives_reclamp_witness :
  clamp_roi (Some (20, 10, 50, 40)) 400 300 = (20, 10, 50, 40).
Proof.
  exact (proj1 (selected_roi_survives_reclamp
           {| current_frame := Some (300, 400); pixmap := Some (800, 600);
              label_size := (800, 600) |} 40 20 100 80
           300 400 20 10 50 40 [] eq_refl eq_refl)).
Defined.

(** * Further properties of the sampling plan *)

Lemma plan_entry_range :
  forall (world : World) (self : FrameExtractorThread) (t : Q) (idx : Z),
    In (t, idx) (sampling_plan world self) ->
    0 <= idx < total_frames world self /\
    (0 <= t)%Q /\ (t < video_duration world self)%Q.
Proof.
  intros world self t idx Hin. unfold sampling_plan in Hin.
  apply in_flat_map in Hin. destruct Hin as ([u idxs] & Hw & Hin).
  cbn [fst snd] in Hin. apply in_map_iff in Hin.
  destruct Hin as (i & [= <- <-] & Hi).
  destruct (windows_In world self _ _ _ _ (Qle_refl 0) Hw) as (Hu & Hlt & ->).
  destruct (duration_pos world self (Qle_lt_trans _ _ _ Hu Hlt)) as (Hfps & _ & Hint & _).
  split; [|split; assumption].
  pose proof (startFrame_nonneg (fps world self) Hfps u Hu) as Hs.
  destruct (frame_indices_cases (fps world self) (total_frames world self)
              (frame_interval world self) (frames_per_second self) Hfps Hint u Hu)
    as [(_ & Hse & E)|(_ & E)]; rewrite E in Hi.
  - pose proof (linspace_bounds _ _ (Qfloor (Spec.raw_target (fps world self)
                  (total_frames world self) (frame_interval world self)
                  (frames_per_second self) u)) Hse) as Hb.
    rewrite Forall_forall in Hb. specialize (Hb _ Hi).
    unfold Spec.endFrame in Hb. lia.
  - destruct (Spec.startFrame (fps world self) u <? total_frames world self) eqn:El;
      [|destruct Hi].
    apply Z.ltb_lt in El. destruct Hi as [<-|[]]. lia.
Qed.

(** X3.  Every entry of the sampling plan is a frame of the video: its
    index lies in [[0, total_frames)], and its timestamp, the start of its
    window, lies in [[0, video_duration)]. *)
Theorem plan_entries_within_video :
  forall (world : World) (self : FrameExtractorThread) (t : Q) (idx : Z),
    In (t, idx) (sampling_plan world self) ->
    0 <= idx < total_frames world self /\
    (0 <= t)%Q /\ (t < video_duration world self)%Q.
Proof. exact plan_entry_range. Qed.

Lemma plan_entries_within_video_witness :
  0 <= 143 < total_frames (Sample.disk Sample.movie) (Sample.job 2 3 None) /\
  (0 <= 4)%Q /\ (4 < video_duration (Sample.disk Sample.movie) (Sample.job 2 3 None))%Q.
Proof.
  apply (plan_entries_within_video (Sample.disk Sample.movie) (Sample.job 2 3 None)).
  unfold sampling_plan. apply in_flat_map.
  exists (4%Q, [120; 131; 143; 155; 167; 179]). split.
  - right. right. left. reflexivity.
  - right. right. left. reflexivity.
Defined.

(** X4.  A window never plans more frames than the density asks for, nor
    more than it holds: its number of indices is at most
    [max(1, floor(density * frame_interval))] and at most
    [max(1, endFrame - startFrame)]. *)
Theorem window_size_bounded :
  forall (world : World) (self : FrameExtractorThread) (t : Q) (indices : list Z),
    In (t, indices) (windows world self (iterations world self) 0%Q) ->
    Z.of_nat (List.length indices)
    <= Z.max 1 (Qfloor (inject_Z (frames_per_second self) * frame_interval world self)) /\
    Z.of_nat (List.length indices)
    <= Z.max 1 (Spec.endFrame (fps world self) (total_frames world self)
                  (frame_interval world self) t
                - Spec.startFrame (fps world self) t).
Proof.
  intros world self t indices Hw.
  destruct (windows_In world self _ _ _ _ (Qle_refl 0) Hw) as (Hu & Hlt & ->).
  destruct (duration_pos world self (Qle_lt_trans _ _ _ Hu Hlt)) as (Hfps & _ & Hint & _).
  destruct (frame_indices_cases (fps world self) (total_frames world self)
              (frame_interval world self) (frames_per_second self) Hfps Hint t Hu)
    as [(Hpos & Hse & ->)|(_ & ->)].
  - rewrite linspace_length.
    set (raw := Spec.raw_target (fps world self) (total_frames world self)
                  (frame_interval world self) (frames_per_second self) t) in *.
    assert (H0 : 0 <= Qfloor raw) by (apply Qfloor_nonneg, Qlt_le_weak; exact Hpos).
    rewrite Z2Nat.id by exact H0.
    assert (H1 : (raw <= inject_Z (frames_per_second self) * frame_interval world self)%Q /\
                 (raw <= inject_Z (Spec.endFrame (fps world self) (total_frames world self)
                                     (frame_interval world self) t
                                   - Spec.startFrame (fps world self) t))%Q).
    { unfold raw, Spec.raw_target.
      destruct (min_cases (inject_Z (frames_per_second self) * frame_interval world self)
                  (inject_Z (Spec.endFrame (fps world self) (total_frames world self)
                               (frame_interval world self) t
                             - Spec.startFrame (fps world self) t)))
        as [[Hl ->]|[Hl ->]].
      - split; [apply Qlt_le_weak; exact Hl | apply Qle_refl].
      - split; [apply Qle_refl | exact Hl]. }
    destruct H1 as [Ha Hb].
    apply Qfloor_resp_le in Ha, Hb. rewrite Qfloor_Z in Hb. lia.
  - destruct (_ <? _); cbn [List.length]; lia.
Qed.

Lemma window_size_bounded_witness :
  Z.of_nat (List.length [120; 131; 143; 155; 167; 179])
  <= Z.max 1 (Qfloor (inject_Z 3 * frame_interval (Sample.disk Sample.movie)
                                                  (Sample.job 2 3 None))).
Proof.
  apply (window_size_bounded (Sample.disk Sample.movie) (Sample.job 2 3 None) 4%Q).
  right. right. left. reflexivity.
Defined.

(** * Further properties of the run *)

Lemma reads_incl_visited (world : World) (self : FrameExtractorThread)
      (t : Q) (indices : list Z) (frame_count : Z) :
  incl (reads (fst (for_loop world self t indices frame_count))) indices.
Proof.
  revert frame_count. induction indices as [|idx rest IH]; intros c.
  - cbn. apply incl_refl.
  - rewrite for_loop_cons.
    destruct (read (cap world self) idx) as [[f|]|msg].
    + destruct (0 <? frame_size _).
      * destruct (cv2_imwrite world _ _) as [ok|msg]; cbn [fst].
        -- cbn [reads flat_map app].
           fold (reads (fst (for_loop world self t rest (c + 1)))).
           apply incl_cons; [left; reflexivity|].
           apply incl_tl. apply IH.
        -- cbn. apply incl_cons; [left; reflexivity | apply incl_nil_l].
      * cbn [fst reads flat_map app].
        fold (reads (fst (for_loop world self t rest c))).
        apply incl_cons; [left; reflexivity|]. apply incl_tl. apply IH.
    + cbn. apply incl_cons; [left; reflexivity | apply incl_nil_l].
    + cbn. apply incl_cons; [left; reflexivity | apply incl_nil_l].
Qed.

Lemma while_loop_reads_incl (world : World) (self : FrameExtractorThread)
      (fuel : nat) (t : Q) (frame_count : Z) :
  (0 <= t)%Q ->
  incl (reads (fst (while_loop world self fuel t frame_count)))
       (flat_map snd (windows world self fuel t)).
Proof.
  revert t frame_count. induction fuel as [|fuel IH]; intros t c Ht.
  - cbn [while_loop windows]. destruct (Py.ltb _ _); cbn; apply incl_refl.
  - rewrite while_loop_S, windows_S by exact Ht.
    destruct (Py.ltb t (video_duration world self)) eqn:E; [|cbn; apply incl_refl].
    cbv zeta. cbn [flat_map snd].
    pose proof (reads_incl_visited world self t
                  (frame_indices (fps world self) (total_frames world self)
                     (frame_interval world self) (frames_per_second self) t) c) as Hb.
    destruct (snd (for_loop world self t _ c)) as [c'| |]; cbn [fst].
    + rewrite reads_app. apply incl_app.
      * apply incl_appl. exact Hb.
      * apply incl_appr. apply IH. apply next_window_nonneg; assumption.
    + apply incl_appl. exact Hb.
    + apply incl_appl. exact Hb.
Qed.

(** The log of a run, path by path: the open failure, the failure of
    [makedirs], the completed loop, the loop that raised. *)
Lemma run_log_cases (world : World) (self : FrameExtractorThread) :
  (exists msg, fst (run world self) = [E_error msg]) \/
  (exists log last,
      fst (run world self) = E_makedirs (output_dir self) :: log ++ last /\
      log = fst (while_loop world self (iterations world self) 0%Q 0) /\
      ((exists frame_count,
           snd (while_loop world self (iterations world self) 0%Q 0) = Done frame_count /\
           last = [E_release; E_finished frame_count]) \/
       (exists msg, last = [E_error msg]))).
Proof.
  pose proof (run_while_fuel world self) as Hfuel.
  unfold run. rewrite run_fuel_eq.
  destruct (negb (isOpened (cap world self))); [left; eexists; reflexivity|].
  destruct (os_makedirs world (output_dir self)); [|left; eexists; reflexivity].
  cbv zeta. right.
  destruct (snd (while_loop world self (iterations world self) 0%Q 0))
    as [c|msg|] eqn:E; [| |congruence]; cbn [fst].
  - eexists _, _. split; [reflexivity|]. split; [reflexivity|].
    left. exists c. split; reflexivity.
  - eexists _, _. split; [reflexivity|]. split; [reflexivity|].
    right. eexists. reflexivity.
Qed.

(** X5.  The worker seeks and reads planned frames only, whatever the
    decoder and the disk answer: every index handed to [cap.read] is an
    index of the sampling plan, hence a frame index in
    [[0, total_frames)]. *)
Theorem run_reads_planned_frames_only :
  forall (world : World) (self : FrameExtractorThread) (idx : Z),
    In idx (reads (fst (run world self))) ->
    In idx (map snd (sampling_plan world self)) /\
    0 <= idx < total_frames world self.
Proof.
  intros world self idx Hin.
  assert (Hplan : In idx (map snd (sampling_plan world self))).
  { unfold sampling_plan. rewrite plan_indices.
    pose proof (while_loop_reads_incl world self (iterations world self) 0%Q 0
                  (Qle_refl 0)) as Hincl.
    destruct (run_log_cases world self) as [[msg E]|(log & last & E & -> & Hlast)];
      rewrite E in Hin.
    - destruct Hin.
    - cbn [reads flat_map app] in Hin.
      fold (reads (fst (while_loop world self (iterations world self) 0%Q 0) ++ last)) in Hin.
      rewrite reads_app in Hin. apply in_app_or in Hin. destruct Hin as [Hin|Hin].
      + apply Hincl. exact Hin.
      + exfalso. destruct Hlast as [(c & _ & ->)|(msg & ->)]; destruct Hin. }
  split; [exact Hplan|].
  apply in_map_iff in Hplan. destruct Hplan as ([t i] & Heq & Hp).
  cbn [snd] in Heq. subst i.
  apply (plan_entry_range world self t idx Hp).
Qed.

Lemma run_reads_planned_frames_only_witness :
  In 3 (map snd (sampling_plan (Sample.disk Sample.clip) (Sample.job 3 1 None))) /\
  0 <= 3 < total_frames (Sample.disk Sample.clip) (Sample.job 3 1 None).
Proof.
  apply (run_reads_planned_frames_only (Sample.disk Sample.clip) (Sample.job 3 1 None)).
  right. right. left. reflexivity.
Defined.

Lemma progress_percent_below_100 (world : World) (self : FrameExtractorThread) (t : Q) :
  (0 <= t)%Q -> (t < video_duration world self)%Q ->
  0 <= progress_percent world self t <= 99.
Proof.
  intros Ht Hlt.
  assert (Hd : (0 < video_duration world self)%Q) by (eapply Qle_lt_trans; eassumption).
  rewrite (progress_percent_floor world self t Ht Hd).
  assert (H : (100 * t / video_duration world self < inject_Z 100)%Q).
  { apply Qlt_shift_div_r; [exact Hd|].
    change (inject_Z 100) with 100%Q. apply Qmult_lt_l; [reflexivity | exact Hlt]. }
  assert (Hf : Qfloor (100 * t / video_duration world self) < 100).
  { rewrite Zlt_Qlt. eapply Qle_lt_trans; [apply Qfloor_le | exact H]. }
  lia.
Qed.

Lemma run_progress_values (world : World) (self : FrameExtractorThread) :
  progress_values (fst (run world self)) = [] \/
  progress_values (fst (run world self))
  = progress_values (fst (while_loop world self (iterations world self) 0%Q 0)).
Proof.
  destruct (run_log_cases world self) as [[msg E]|(log & last & E & -> & Hlast)];
    rewrite E.
  - left. reflexivity.
  - right. cbn [progress_values flat_map app].
    fold (progress_values
            (fst (while_loop world self (iterations world self) 0%Q 0) ++ last)).
    rewrite progress_values_app.
    destruct Hlast as [(c & _ & ->)|(msg & ->)]; cbn; apply app_nil_r.
Qed.

(** X6.  The worker never reports 100 percent: every progress signal of a
    run carries a value between 0 and 99, because it is computed from the
    start of a window, which lies strictly before the end of the video. *)
Theorem progress_never_reaches_100 :
  forall (world : World) (self : FrameExtractorThread),
    Forall (fun p => 0 <= p <= 99) (progress_values (fst (run world self))).
Proof.
  intros world self.
  destruct (run_progress_values world self) as [->| ->]; [constructor|].
  destruct (while_loop_progress world self (iterations world self) 0%Q 0 (Qle_refl 0))
    as (_ & _ & counts & ->).
  apply Forall_forall. intros p Hp.
  apply in_flat_map in Hp. destruct Hp as ([[t idxs] k] & Hwk & Hp).
  cbn [fst snd] in Hp. apply repeat_spec in Hp. subst p.
  apply in_combine_l in Hwk.
  destruct (windows_In world self _ _ _ _ (Qle_refl 0) Hwk) as (Ht & Hlt & _).
  apply progress_percent_below_100; assumption.
Qed.

(** X7.  A run that emits the completed event did everything in order:
    the log starts with [os.makedirs], ends with [cap.release()] followed
    by the completed event, and holds only reads, writes and progress
    signals in between (no error event, no second terminal event). *)
Theorem completed_run_shape :
  forall (world : World) (self : FrameExtractorThread) (n : Z),
    In (E_finished n) (fst (run world self)) ->
    exists log,
      fst (run world self)
      = E_makedirs (output_dir self) :: log ++ [E_release; E_finished n] /\
      loop_log world self log.
Proof.
  intros world self n Hin.
  pose proof (while_loop_log world self (iterations world self) 0%Q 0 (Qle_refl 0))
    as Hlog.
  destruct (run_log_cases world self) as [[msg E]|(log & last & E & -> & Hlast)];
    rewrite E in Hin |- *.
  - destruct Hin as [Hin|[]]. discriminate.
  - assert (Hnot : ~ In (E_finished n)
                     (fst (while_loop world self (iterations world self) 0%Q 0))).
    { intros H. unfold loop_log in Hlog. rewrite Forall_forall in Hlog.
      destruct (Hlog _ H) as [t Ht]. exact Ht. }
    destruct Hin as [Hin|Hin]; [discriminate|].
    apply in_app_or in Hin. destruct Hin as [Hin|Hin]; [contradiction|].
    destruct Hlast as [(c & _ & ->)|(msg & ->)].
    + destruct Hin as [Hin|[Hin|[]]]; [discriminate|]. injection Hin as ->.
      eexists. split; [reflexivity | exact Hlog].
    + destruct Hin as [Hin|[]]. discriminate.
Qed.

Lemma completed_run_shape_witness :
  exists log,
    fst (run (Sample.disk Sample.short) (Sample.job 1 1 None))
    = E_makedirs "out" :: log ++ [E_release; E_finished 2] /\
    loop_log (Sample.disk Sample.short) (Sample.job 1 1 None) log.
Proof.
  apply (completed_run_shape (Sample.disk Sample.short) (Sample.job 1 1 None) 2).
  cbn. do 8 right. left. reflexivity.
Defined.

(** * The windows of the plan *)




Section WindowCount.

Variable world : World.
Variable self : FrameExtractorThread.
Hypothesis interval_pos : (0 < frame_interval world self)%Q.



End WindowCount.





(** * Runs on a fully decodable video *)

Lemma crop_size_pos (f : frame) (vw vh : Z) (r : option ROI) :
  has_shape f vh vw -> 0 < vw -> 0 < vh -> 0 < frame_size (crop f vw vh r).
Proof.
  intros Hf Hw Hh.
  assert (Hfull : 0 < frame_size f) by (rewrite (frame_size_shape f vh vw Hf); nia).
  destruct r as [[[[rx ry] rw] rh]|]; [|exact Hfull].
  pose proof (clamp_roi_bounds (rx, ry, rw, rh) vw vh Hw Hh) as Hb.
  unfold crop, clamp_roi in *. cbv beta iota zeta in *.
  set (x := Z.max 0 (Z.min rx (vw - 1))) in *.
  set (y := Z.max 0 (Z.min ry (vh - 1))) in *.
  set (w := Z.min rw (vw - x)) in *.
  set (h := Z.min rh (vh - y)) in *.
  destruct Hb as (Hx & Hy & Hxw & Hyh).
  unfold apply_roi. cbn [is_some andb].
  destruct (0 <? w) eqn:E1; [|exact Hfull].
  destruct (0 <? h) eqn:E2; [|exact Hfull].
  apply Z.ltb_lt in E1, E2. cbn [andb].
  rewrite (frame_size_shape _ h w) by (eapply frame_slice_shape; eauto; lia).
  nia.
Qed.

Lemma plan_timestamps (ws : list (Q * list Z)) :
  map fst (flat_map (fun w => map (pair (fst w)) (snd w)) ws)
  = flat_map (fun w => repeat (fst w) (List.length (snd w))) ws.
Proof.
  induction ws as [|[t l] ws IH]; [reflexivity|].
  cbn [flat_map fst snd]. rewrite map_app, IH. f_equal.
  clear. induction l as [|i l IH]; [reflexivity|]. cbn. f_equal. exact IH.
Qed.

Section Decodable.

Variable world : World.
Variable self : FrameExtractorThread.

Hypothesis writes_return :
  forall path img msg, cv2_imwrite world path img <> Exc msg.

Lemma for_loop_all_good (t : Q) (indices : list Z) (frame_count : Z) :
  Forall (good_index world self) indices ->
  reads (fst (for_loop world self t indices frame_count)) = indices /\
  attempted_paths (fst (for_loop world self t indices frame_count))
  = paths_from self frame_count (repeat t (List.length indices)) /\
  snd (for_loop world self t indices frame_count)
  = Done (frame_count + Z.of_nat (List.length indices)).
Proof.
  intros Hall. revert frame_count.
  induction Hall as [|idx rest (f & Hr & Hsz) _ IH]; intros c.
  - cbn. rewrite Z.add_0_r. repeat split.
  - rewrite for_loop_cons, Hr. apply Z.ltb_lt in Hsz. rewrite Hsz.
    destruct (cv2_imwrite world _ _) as [ok|msg] eqn:Ew;
      [|exfalso; exact (writes_return _ _ _ Ew)].
    destruct (IH (c + 1)) as (IH1 & IH2 & IH3). cbn [fst snd].
    split; [|split].
    + cbn [reads flat_map app].
      fold (reads (fst (for_loop world self t rest (c + 1)))).
      rewrite IH1. reflexivity.
    + cbn [attempted_paths flat_map app List.length repeat paths_from].
      fold (attempted_paths (fst (for_loop world self t rest (c + 1)))).
      rewrite IH2. reflexivity.
    + rewrite IH3. cbn [List.length]. f_equal. lia.
Qed.

Lemma while_loop_all_good (fuel : nat) (t : Q) (frame_count : Z) :
  (0 <= t)%Q ->
  Forall (good_index world self) (flat_map snd (windows world self fuel t)) ->
  reads (fst (while_loop world self fuel t frame_count))
  = flat_map snd (windows world self fuel t) /\
  attempted_paths (fst (while_loop world self fuel t frame_count))
  = paths_from self frame_count
      (flat_map (fun w => repeat (fst w) (List.length (snd w)))
                (windows world self fuel t)) /\
  (snd (while_loop world self fuel t frame_count) <> OutOfFuel ->
   snd (while_loop world self fuel t frame_count)
   = Done (frame_count
           + Z.of_nat (List.length (flat_map snd (windows world self fuel t))))).
Proof.
  revert t frame_count. induction fuel as [|fuel IH]; intros t c Ht Hall.
  - cbn [while_loop windows]. destruct (Py.ltb _ _); cbn.
    + repeat split. congruence.
    + rewrite Z.add_0_r. repeat split.
  - rewrite while_loop_S by exact Ht. rewrite windows_S in Hall |- * by exact Ht.
    destruct (Py.ltb t (video_duration world self)) eqn:E.
    2:{ cbn. rewrite Z.add_0_r. repeat split. }
    cbn [flat_map fst snd] in Hall |- *. apply Forall_app in Hall.
    destruct Hall as [Hhere Hrest].
    destruct (for_loop_all_good t _ c Hhere) as (H1 & H2 & H3).
    cbv zeta. rewrite H3. cbn [fst snd].
    destruct (IH _ (c + Z.of_nat (List.length
                (frame_indices (fps world self) (total_frames world self)
                   (frame_interval world self) (frames_per_second self) t)))
                (proj1 (next_window_nonneg world self t Ht E)) Hrest)
      as (IH1 & IH2 & IH3).
    split; [|split].
    + rewrite reads_app, H1, IH1. reflexivity.
    + rewrite attempted_paths_app, H2, IH2, paths_from_app, repeat_length. reflexivity.
    + intros Hne. rewrite (IH3 Hne). f_equal. rewrite length_app. lia.
Qed.

End Decodable.

(** X10.  On a video whose frames all decode to images of the reported
    width and height, with no exception from the external calls, the run
    realises the whole plan: it reads exactly the planned indices in plan
    order, hands one file to [cv2.imwrite] per plan entry, file number [k]
    named with counter [k] and the timestamp of plan entry [k], and
    reports the length of the plan. *)
Theorem decodable_video_realises_the_plan :
  forall (world : World) (self : FrameExtractorThread),
    isOpened (cap world self) = true ->
    no_exception world self ->
    0 < video_width world self -> 0 < video_height world self ->
    (forall idx, 0 <= idx < total_frames world self ->
       exists f, read (cap world self) idx = Ok (Some f) /\
                 has_shape f (video_height world self) (video_width world self)) ->
    reads (fst (run world self)) = map snd (sampling_plan world self) /\
    attempted_paths (fst (run world self))
    = paths_from self 0 (map fst (sampling_plan world self)) /\
    In (E_finished (Z.of_nat (List.length (sampling_plan world self))))
       (fst (run world self)).
Proof.
  intros world self Hopen (Hread & Hmk & Hwrite) Hw Hh Hdec.
  assert (Hgood : Forall (good_index world self)
                    (flat_map snd (windows world self (iterations world self) 0%Q))).
  { apply Forall_forall. intros idx Hin.
    assert (Hp : In idx (map snd (sampling_plan world self))).
    { unfold sampling_plan. rewrite plan_indices. exact Hin. }
    apply in_map_iff in Hp. destruct Hp as ([t i] & Heq & Hp). cbn [snd] in Heq. subst i.
    destruct (plan_entry_range world self t idx Hp) as [Hrange _].
    destruct (Hdec idx Hrange) as (f & Hf & Hshape).
    exists f. split; [exact Hf|]. apply crop_size_pos; assumption. }
  destruct (while_loop_all_good world self Hwrite (iterations world self) 0%Q 0
              (Qle_refl 0) Hgood) as (H1 & H2 & H3).
  specialize (H3 (run_while_fuel world self)).
  assert (Hlen : List.length (sampling_plan world self)
                 = List.length (flat_map snd (windows world self (iterations world self) 0%Q))).
  { rewrite <- (plan_indices (windows world self (iterations world self) 0%Q)).
    unfold sampling_plan. rewrite length_map. reflexivity. }
  assert (E : fst (run world self)
              = [E_makedirs (output_dir self)]
                ++ fst (while_loop world self (iterations world self) 0%Q 0)
                ++ [E_release;
                    E_finished (Z.of_nat (List.length (sampling_plan world self)))]).
  { unfold run. rewrite run_fuel_eq, Hopen. cbn [negb].
    destruct (os_makedirs world (output_dir self)) as [u|msg];
      [|exfalso; exact (Hmk msg eq_refl)].
    cbv zeta. rewrite H3, Hlen. reflexivity. }
  rewrite E. split; [|split].
  - rewrite !reads_app, H1. unfold sampling_plan. rewrite plan_indices.
    cbn. apply app_nil_r.
  - rewrite !attempted_paths_app, H2. unfold sampling_plan. rewrite plan_timestamps.
    cbn. apply app_nil_r.
  - apply in_or_app. right. apply in_or_app. right. right. left. reflexivity.
Qed.

Lemma decodable_video_realises_the_plan_witness :
  reads (fst (run (Sample.disk Sample.short) (Sample.job 1 1 None))) = [0; 1] /\
  attempted_paths (fst (run (Sample.disk Sample.short) (Sample.job 1 1 None)))
  = ["out/frame_000000_t0.00s.jpg"%string; "out/frame_000001_t1.00s.jpg"%string].
Proof.
  assert (H := decodable_video_realises_the_plan
                 (Sample.disk Sample.short) (Sample.job 1 1 None) eq_refl
                 (sample_no_exception Sample.short (Sample.job 1 1 None)
                    (fun idx msg => ltac:(discriminate)))
                 eq_refl eq_refl
                 (fun idx _ => ex_intro _ (Sample.blank 2 2)
                                 (conj eq_refl (blank_shape 2 2)))).
  destruct H as (H1 & H2 & _). split; [exact H1 | exact H2].
Defined.

Lemma paths_from_length (self : FrameExtractorThread) (c : Z) (ts : list Q) :
  List.length (paths_from self c ts) = List.length ts.
Proof.
  revert c. induction ts as [|t ts IH]; intros c; [reflexivity|].
  cbn [paths_from List.length]. rewrite IH. reflexivity.
Qed.

Lemma for_loop_attempts_le (world : World) (self : FrameExtractorThread)
      (t : Q) (indices : list Z) (frame_count : Z) :
  (List.length (attempted_paths (fst (for_loop world self t indices frame_count)))
   <= List.length indices)%nat.
Proof.
  revert frame_count. induction indices as [|idx rest IH]; intros c.
  - cbn. lia.
  - rewrite for_loop_cons.
    destruct (read (cap world self) idx) as [[f|]|msg]; [|cbn; lia|cbn; lia].
    destruct (0 <? frame_size _).
    + destruct (cv2_imwrite world _ _) as [ok|msg]; cbn [fst]; [|cbn; lia].
      cbn [attempted_paths flat_map app List.length].
      fold (attempted_paths (fst (for_loop world self t rest (c + 1)))).
      specialize (IH (c + 1)). lia.
    + cbn [fst attempted_paths flat_map app List.length].
      fold (attempted_paths (fst (for_loop world self t rest c))).
      specialize (IH c). lia.
Qed.

Lemma while_loop_attempts_le (world : World) (self : FrameExtractorThread)
      (fuel : nat) (t : Q) (frame_count : Z) :
  (0 <= t)%Q ->
  (List.length (attempted_paths (fst (while_loop world self fuel t frame_count)))
   <= List.length (flat_map snd (windows world self fuel t)))%nat.
Proof.
  revert t frame_count. induction fuel as [|fuel IH]; intros t c Ht.
  - cbn [while_loop windows]. destruct (Py.ltb _ _); cbn; lia.
  - rewrite while_loop_S, windows_S by exact Ht.
    destruct (Py.ltb t (video_duration world self)) eqn:E; [|cbn; lia].
    cbv zeta. cbn [flat_map snd]. rewrite length_app.
    pose proof (for_loop_attempts_le world self t
                  (frame_indices (fps world self) (total_frames world self)
                     (frame_interval world self) (frames_per_second self) t) c) as Hb.
    destruct (snd (for_loop world self t _ c)) as [c'| |]; cbn [fst]; try lia.
    rewrite attempted_paths_app, length_app.
    specialize (IH _ c' (proj1 (next_window_nonneg world self t Ht E))). lia.
Qed.

(** X11.  The number carried by the completed event is the number of
    [cv2.imwrite] calls of the run; it is never negative and never exceeds
    the number of entries of the sampling plan. *)
Theorem finished_count_bounded_by_plan :
  forall (world : World) (self : FrameExtractorThread) (n : Z),
    In (E_finished n) (fst (run world self)) ->
    n = Z.of_nat (List.length (attempted_paths (fst (run world self)))) /\
    0 <= n <= Z.of_nat (List.length (sampling_plan world self)).
Proof.
  intros world self n Hin.
  destruct (finished_counts_imwrite_calls world self n Hin) as (ts & Hp & Hn & _).
  assert (Hcount : n = Z.of_nat (List.length (attempted_paths (fst (run world self))))).
  { rewrite Hp, paths_from_length. exact Hn. }
  split; [exact Hcount|]. split; [lia|].
  rewrite Hcount. apply inj_le.
  assert (Hlen : List.length (sampling_plan world self)
                 = List.length (flat_map snd (windows world self (iterations world self) 0%Q))).
  { rewrite <- (plan_indices (windows world self (iterations world self) 0%Q)).
    unfold sampling_plan. rewrite length_map. reflexivity. }
  rewrite Hlen.
  pose proof (while_loop_attempts_le world self (iterations world self) 0%Q 0
                (Qle_refl 0)) as Hle.
  destruct (run_log_cases world self) as [[msg E]|(log & last & E & -> & Hlast)];
    rewrite E.
  - cbn. lia.
  - cbn [attempted_paths flat_map app].
    fold (attempted_paths
            (fst (while_loop world self (iterations world self) 0%Q 0) ++ last)).
    rewrite attempted_paths_app, length_app.
    destruct Hlast as [(c & _ & ->)|(msg & ->)]; cbn; lia.
Qed.

Lemma finished_count_bounded_by_plan_witness :
  2 = Z.of_nat (List.length (attempted_paths
                   (fst (run (Sample.read_only_disk Sample.short) (Sample.job 1 1 None))))) /\
  0 <= 2 <= Z.of_nat (List.length
                        (sampling_plan (Sample.read_only_disk Sample.short)
                                       (Sample.job 1 1 None))).
Proof.
  apply (finished_count_bounded_by_plan
           (Sample.read_only_disk Sample.short) (Sample.job 1 1 None) 2).
  cbn. do 8 right. left. reflexivity.
Defined.

(** * Cropping to the whole frame *)

Lemma slice_full {A : Type} (l : list A) :
  Py.slice 0 (Z.of_nat (List.length l)) l = l.
Proof.
  rewrite slice_inside by lia. cbn [Z.to_nat skipn].
  rewrite Z.sub_0_r, Nat2Z.id. apply firstn_all.
Qed.

(** X12.  An ROI that covers the frame, or reaches beyond it from the
    origin, crops nothing away: for a frame of the video's width and
    height and an ROI (0, 0, w, h) with [w >= width] and [h >= height] the
    worker writes the frame itself. *)
Theorem covering_roi_keeps_frame :
  forall (f : frame) (video_width video_height w h : Z),
    has_shape f video_height video_width ->
    0 < video_width -> 0 < video_height ->
    video_width <= w -> video_height <= h ->
    crop f video_width video_height (Some (0, 0, w, h)) = f.
Proof.
  intros f vw vh w h [Hh Hw] Hvw Hvh Hw' Hh'.
  unfold crop, clamp_roi, apply_roi. cbv beta iota zeta. cbn [is_some andb].
  replace (Z.max 0 (Z.min 0 (vw - 1))) with 0 by lia.
  replace (Z.max 0 (Z.min 0 (vh - 1))) with 0 by lia.
  rewrite !Z.sub_0_r, !Z.add_0_l, (Z.min_r w vw), (Z.min_r h vh) by lia.
  rewrite (proj2 (Z.ltb_lt 0 vw) Hvw), (proj2 (Z.ltb_lt 0 vh) Hvh). cbn [andb].
  unfold frame_slice. rewrite <- Hh, slice_full.
  rewrite <- (map_id f) at 2. apply map_ext_in. intros row Hrow.
  rewrite Forall_forall in Hw. rewrite <- (Hw row Hrow). apply slice_full.
Qed.

Lemma covering_roi_keeps_frame_witness :
  crop (Sample.blank 2 4) 4 2 (Some (0, 0, 10, 10)) = Sample.blank 2 4.
Proof.
  apply (covering_roi_keeps_frame (Sample.blank 2 4) 4 2 10 10 (blank_shape 2 4));
    lia.
Defined.

(** * The rectangle selector *)

Section SelectorFacts.

Variable QPoint_bool : Selector.QPoint -> bool.

(** X13.  A rectangle that the selector emits has positive width and
    height and lies inside the bounds it was clamped to; it is also the
    value stored in [self.roi]. *)
Theorem emitted_roi_inside_bounds :
  forall (parent_size : Z * Z) (s s' : Selector.RectangleSelector) (x y w h : Z),
    Selector._update_roi QPoint_bool parent_size s = (s', Some (x, y, w, h)) ->
    0 < w /\ 0 < h /\ 0 <= x /\ 0 <= y /\
    x + w <= fst parent_size /\ y + h <= snd parent_size /\
    Selector.roi s' = Some (x, y, w, h).
Proof.
  intros [pw ph] s s' x y w h. unfold Selector._update_roi.
  destruct (_ && _); [|discriminate].
  destruct (Selector.start_point s) as [[x1 y1]|]; [|discriminate].
  destruct (Selector.end_point s) as [[x2 y2]|]; [|discriminate].
  cbv zeta. cbn [fst snd].
  destruct (0 <? _) eqn:E1; [|discriminate].
  destruct (0 <? Z.min (Z.abs (y2 - y1)) _) eqn:E2; [|discriminate].
  cbn [andb]. apply Z.ltb_lt in E1, E2.
  intros [= <- <- <- <- <-]. cbn [Selector.roi]. repeat split; lia.
Qed.

(** X14.  The direction of the drag does not matter: exchanging the start
    and the end point gives the same emitted rectangle and the same stored
    ROI. *)
Theorem drag_direction_irrelevant :
  forall (parent_size : Z * Z) (p q : option Selector.QPoint) (d : bool) (r : option ROI),
    let forward :=
      Selector._update_roi QPoint_bool parent_size
        {| Selector.start_point := p; Selector.end_point := q;
           Selector.drawing := d; Selector.roi := r |} in
    let backward :=
      Selector._update_roi QPoint_bool parent_size
        {| Selector.start_point := q; Selector.end_point := p;
           Selector.drawing := d; Selector.roi := r |} in
    snd forward = snd backward /\
    Selector.roi (fst forward) = Selector.roi (fst backward).
Proof.
  intros [pw ph] p q d r. cbv zeta. unfold Selector._update_roi.
  cbn [Selector.start_point Selector.end_point Selector.drawing Selector.roi fst snd].
  rewrite (andb_comm (Selector.truthy QPoint_bool q)).
  destruct (_ && _); [|split; reflexivity].
  destruct p as [[x1 y1]|], q as [[x2 y2]|]; try (split; reflexivity).
  rewrite (Z.min_comm x2 x1), (Z.min_comm y2 y1).
  replace (Z.abs (x1 - x2)) with (Z.abs (x2 - x1)) by lia.
  replace (Z.abs (y1 - y2)) with (Z.abs (y2 - y1)) by lia.
  destruct (_ && _); split; reflexivity.
Qed.

(** X15.  A drag between two points inside the bounds that differ in both
    coordinates emits the rectangle they span: its corner is the
    coordinate-wise minimum, its width and height the distances. *)
Theorem drag_inside_bounds_emits_spanned_rectangle :
  forall (parent_size : Z * Z) (x1 y1 x2 y2 : Z) (d : bool) (r : option ROI),
    QPoint_bool (x1, y1) = true -> QPoint_bool (x2, y2) = true ->
    0 <= x1 < fst parent_size -> 0 <= x2 < fst parent_size ->
    0 <= y1 < snd parent_size -> 0 <= y2 < snd parent_size ->
    x1 <> x2 -> y1 <> y2 ->
    snd (Selector._update_roi QPoint_bool parent_size
           {| Selector.start_point := Some (x1, y1); Selector.end_point := Some (x2, y2);
              Selector.drawing := d; Selector.roi := r |})
    = Some (Z.min x1 x2, Z.min y1 y2, Z.abs (x2 - x1), Z.abs (y2 - y1)).
Proof.
  intros [pw ph] x1 y1 x2 y2 d r Hp Hq Hx1 Hx2 Hy1 Hy2 Hx Hy.
  cbn [fst snd] in *. unfold Selector._update_roi.
  cbn [Selector.start_point Selector.end_point Selector.truthy].
  rewrite Hp, Hq. cbn [andb fst snd]. cbv zeta.
  replace (Z.max 0 (Z.min (Z.min x1 x2) (pw - 1))) with (Z.min x1 x2) by lia.
  replace (Z.max 0 (Z.min (Z.min y1 y2) (ph - 1))) with (Z.min y1 y2) by lia.
  replace (Z.min (Z.abs (x2 - x1)) (pw - Z.min x1 x2)) with (Z.abs (x2 - x1)) by lia.
  replace (Z.min (Z.abs (y2 - y1)) (ph - Z.min y1 y2)) with (Z.abs (y2 - y1)) by lia.
  rewrite (proj2 (Z.ltb_lt 0 (Z.abs (x2 - x1)))) by lia.
  rewrite (proj2 (Z.ltb_lt 0 (Z.abs (y2 - y1)))) by lia.
  reflexivity.
Qed.

End SelectorFacts.

Lemma emitted_roi_inside_bounds_witness :
  0 < 20 /\ 0 < 15 /\ 0 <= 10 /\ 0 <= 5 /\ 10 + 20 <= 800 /\ 5 + 15 <= 600 /\
  Some (10, 5, 20, 15) = Some (10, 5, 20, 15).
Proof.
  exact (emitted_roi_inside_bounds (fun _ => true) (800, 600)
           {| Selector.start_point := Some (30, 5); Selector.end_point := Some (10, 20);
              Selector.drawing := false; Selector.roi := None |}
           _ 10 5 20 15 eq_refl).
Defined.

Lemma drag_inside_bounds_emits_spanned_rectangle_witness :
  snd (Selector._update_roi (fun p => negb ((fst p =? 0) && (snd p =? 0))) (800, 600)
         {| Selector.start_point := Some (30, 5); Selector.end_point := Some (10, 20);
            Selector.drawing := false; Selector.roi := None |})
  = Some (10, 5, 20, 15).
Proof.
  apply (drag_inside_bounds_emits_spanned_rectangle
           (fun p => negb ((fst p =? 0) && (snd p =? 0))) (800, 600) 30 5 10 20);
    cbn; (reflexivity || lia).
Defined.

Section GestureFacts.

Variable QPoint_bool : Selector.QPoint -> bool.

Lemma release_ignores_end_point (parent_size : Z * Z) (pos : Selector.QPoint)
      (sp q q' : option Selector.QPoint) (r : option ROI) :
  Selector.mouseReleaseEvent QPoint_bool parent_size Selector.LeftButton pos
    {| Selector.start_point := sp; Selector.end_point := q;
       Selector.drawing := true; Selector.roi := r |}
  = Selector.mouseReleaseEvent QPoint_bool parent_size Selector.LeftButton pos
      {| Selector.start_point := sp; Selector.end_point := q';
         Selector.drawing := true; Selector.roi := r |}.
Proof. reflexivity. Qed.

Lemma handle_all_move (m : Selector.QPoint) (rest : list Selector.event)
      (s : Selector.RectangleSelector) :
  Selector.handle_all QPoint_bool s (Selector.Move m :: rest)
  = Selector.handle_all QPoint_bool (Selector.mouseMoveEvent m s) rest.
Proof.
  cbn [Selector.handle_all Selector.handle].
  destruct (Selector.handle_all QPoint_bool _ rest). reflexivity.
Qed.

Lemma handle_all_press (button : Selector.MouseButton) (p : Selector.QPoint)
      (rest : list Selector.event) (s : Selector.RectangleSelector) :
  Selector.handle_all QPoint_bool s (Selector.Press button p :: rest)
  = Selector.handle_all QPoint_bool (Selector.mousePressEvent button p s) rest.
Proof.
  cbn [Selector.handle_all Selector.handle].
  destruct (Selector.handle_all QPoint_bool _ rest). reflexivity.
Qed.

Lemma moves_before_release (parent_size : Z * Z) (pos : Selector.QPoint)
      (moves : list Selector.QPoint) (s : Selector.RectangleSelector) :
  Selector.drawing s = true ->
  Selector.handle_all QPoint_bool s
    (map Selector.Move moves ++ [Selector.Release parent_size Selector.LeftButton pos])
  = Selector.handle_all QPoint_bool s
      [Selector.Release parent_size Selector.LeftButton pos].
Proof.
  revert s. induction moves as [|m moves IH]; intros s Hd; [reflexivity|].
  cbn [map app]. rewrite handle_all_move.
  destruct s as [sp ep dr r]. cbn in Hd. subst dr.
  unfold Selector.mouseMoveEvent. cbn [Selector.drawing Selector.start_point Selector.roi].
  rewrite IH by reflexivity.
  cbn [Selector.handle_all Selector.handle].
  rewrite (release_ignores_end_point parent_size pos sp (Some m) ep r). reflexivity.
Qed.

(** X16.  Of a left-button drag only the point of the press and the point
    of the release count: the mouse moves in between change neither what
    is emitted nor the state the selector ends in. *)
Theorem gesture_depends_on_end_points_only :
  forall (s : Selector.RectangleSelector) (p1 p2 : Selector.QPoint)
         (moves : list Selector.QPoint) (parent_size : Z * Z),
    Selector.handle_all QPoint_bool s
      (Selector.Press Selector.LeftButton p1
         :: map Selector.Move moves
         ++ [Selector.Release parent_size Selector.LeftButton p2])
    = Selector.handle_all QPoint_bool s
        [Selector.Press Selector.LeftButton p1;
         Selector.Release parent_size Selector.LeftButton p2].
Proof.
  intros s p1 p2 moves parent_size.
  rewrite !handle_all_press. apply moves_before_release. reflexivity.
Qed.

(** X17.  A click without a drag, and a drag along one axis only, select
    nothing: when the release shares its x or its y with the press, no
    rectangle is emitted and the stored ROI is the one from before. *)
Theorem degenerate_drag_selects_nothing :
  forall (s : Selector.RectangleSelector) (button : Selector.MouseButton)
         (x1 y1 x2 y2 : Z) (parent_size : Z * Z),
    x1 = x2 \/ y1 = y2 ->
    let result :=
      Selector.handle_all QPoint_bool s
        [Selector.Press button (x1, y1); Selector.Release parent_size button (x2, y2)] in
    snd result = [] /\ Selector.roi (fst result) = Selector.roi s.
Proof.
  intros s button x1 y1 x2 y2 [pw ph] Hdeg. cbv zeta.
  cbn [Selector.handle_all Selector.handle].
  unfold Selector.mousePressEvent, Selector.mouseReleaseEvent.
  destruct (Selector.is_left button) eqn:Eb.
  - cbn [Selector.drawing andb Selector.start_point Selector.roi].
    unfold Selector._update_roi.
    cbn [Selector.start_point Selector.end_point Selector.drawing Selector.roi fst snd].
    destruct (_ && _); [|split; reflexivity]. cbv zeta.
    assert (E : (0 <? Z.min (Z.abs (x2 - x1))
                         (pw - Z.max 0 (Z.min (Z.min x1 x2) (pw - 1))))
                && (0 <? Z.min (Z.abs (y2 - y1))
                           (ph - Z.max 0 (Z.min (Z.min y1 y2) (ph - 1)))) = false).
    { apply andb_false_iff. destruct Hdeg as [->| ->]; [left|right];
        apply Z.ltb_ge; lia. }
    rewrite E. split; reflexivity.
  - cbn [andb]. split; reflexivity.
Qed.

Lemma no_press_step (s : Selector.RectangleSelector) (e : Selector.event) :
  Selector.drawing s = false ->
  (forall pos, e <> Selector.Press Selector.LeftButton pos) ->
  snd (Selector.handle QPoint_bool s e) = None /\
  Selector.drawing (fst (Selector.handle QPoint_bool s e)) = false.
Proof.
  intros Hd Hne. destruct e as [button pos|pos|ps button pos|]; cbn [Selector.handle].
  - destruct button; [exfalso; exact (Hne pos eq_refl)| |];
      cbn; split; [reflexivity | exact Hd | reflexivity | exact Hd].
  - unfold Selector.mouseMoveEvent. rewrite Hd. cbn. split; [reflexivity | exact Hd].
  - unfold Selector.mouseReleaseEvent. rewrite Hd, andb_false_r. cbn.
    split; [reflexivity | exact Hd].
  - cbn. split; [reflexivity | exact Hd].
Qed.

(** X18.  Nothing is emitted without a left-button press: from a state
    that is not drawing, no sequence of moves, releases, presses of
    other buttons and clearings emits a rectangle. *)
Theorem no_emission_without_left_press :
  forall (events : list Selector.event) (s : Selector.RectangleSelector),
    Selector.drawing s = false ->
    (forall pos, ~ In (Selector.Press Selector.LeftButton pos) events) ->
    snd (Selector.handle_all QPoint_bool s events) = [] /\
    Selector.drawing (fst (Selector.handle_all QPoint_bool s events)) = false.
Proof.
  induction events as [|e events IH]; intros s Hd Hne.
  - split; [reflexivity | exact Hd].
  - cbn [Selector.handle_all].
    destruct (no_press_step s e Hd) as [Hout Hd'].
    { intros pos ->. apply (Hne pos). left. reflexivity. }
    destruct (Selector.handle QPoint_bool s e) as [s' out]. cbn [fst snd] in *.
    subst out.
    destruct (IH s' Hd') as [IH1 IH2].
    { intros pos Hin. apply (Hne pos). right. exact Hin. }
    destruct (Selector.handle_all QPoint_bool s' events) as [s'' outs].
    cbn [fst snd] in *. split; assumption.
Qed.

End GestureFacts.

Lemma degenerate_drag_selects_nothing_witness :
  snd (Selector.handle_all (fun _ => true) Selector.__init__
         [Selector.Press Selector.LeftButton (40, 30);
          Selector.Release (800, 600) Selector.LeftButton (40, 30)]) = [].
Proof.
  exact (proj1 (degenerate_drag_selects_nothing (fun _ => true) Selector.__init__
                  Selector.LeftButton 40 30 40 30 (800, 600) (or_introl eq_refl))).
Defined.

Lemma no_emission_without_left_press_witness :
  snd (Selector.handle_all (fun _ => true) Selector.__init__
         [Selector.Move (3, 4);
          Selector.Release (800, 600) Selector.LeftButton (40, 30);
          Selector.Press Selector.RightButton (1, 1);
          Selector.Release (800, 600) Selector.RightButton (50, 60)]) = [].
Proof.
  refine (proj1 (no_emission_without_left_press (fun _ => true) _
                   Selector.__init__ eq_refl _)).
  intros pos H. cbn in H.
  repeat (destruct H as [H|H]; [discriminate|]). exact H.
Defined.

(** * File names *)

Lemma digits_value_zero (s : string) :
  digits_value (String "0" s) = digits_value s.
Proof.
  unfold digits_value. cbn [NilEmpty.uint_of_string].
  destruct (NilEmpty.uint_of_string s); reflexivity.
Qed.

Lemma digits_value_zeros (k : nat) (s : string) :
  digits_value (Py.zeros k ++ s) = digits_value s.
Proof.
  induction k as [|k IH]; [reflexivity|].
  cbn [Py.zeros String.append]. rewrite digits_value_zero. exact IH.
Qed.

Lemma digits_value_str (n : N) :
  digits_value (NilZero.string_of_uint (N.to_uint n)) = Some n.
Proof.
  unfold digits_value.
  assert (H : NilEmpty.uint_of_string (NilZero.string_of_uint (N.to_uint n))
              = Some (N.to_uint n)).
  { destruct (N.to_uint n) eqn:E; try apply NilEmpty.usu.
    exfalso. destruct n as [|p]; [discriminate|].
    exact (DecimalPos.Unsigned.to_uint_nonnil p E). }
  rewrite H. cbn [option_map]. f_equal. apply DecimalN.Unsigned.of_to.
Qed.

Lemma digits_have_no_underscore (s : string) (d : Decimal.uint) :
  NilEmpty.uint_of_string s = Some d -> no_underscore s = true.
Proof.
  revert d. induction s as [|a s IH]; intros d H; [reflexivity|].
  cbn [NilEmpty.uint_of_string] in H.
  destruct (NilEmpty.uint_of_string s) as [d'|] eqn:E; [|discriminate].
  cbn [no_underscore]. rewrite (IH d' eq_refl), andb_true_r.
  apply uint_of_char_spec in H.
  repeat (destruct H as [[-> _]|H]; [reflexivity|]).
  destruct H as [-> _]. reflexivity.
Qed.

Lemma append_cancel_l (p a b : string) : (p ++ a = p ++ b)%string -> a = b.
Proof.
  induction p as [|c p IH]; cbn [String.append]; [auto|].
  intros [= H]. exact (IH H).
Qed.

Lemma no_underscore_app (a b : string) :
  no_underscore (a ++ b) = no_underscore a && no_underscore b.
Proof.
  induction a as [|c a IH]; [reflexivity|].
  cbn [String.append no_underscore]. rewrite IH. apply andb_assoc.
Qed.

Lemma split_at_underscore (a b x y : string) :
  no_underscore a = true -> no_underscore b = true ->
  (a ++ String "_" x = b ++ String "_" y)%string -> a = b.
Proof.
  revert b. induction a as [|c a IH]; intros [|c' b] Ha Hb H;
    cbn [String.append no_underscore] in *.
  - reflexivity.
  - injection H as <- _. discriminate.
  - injection H as -> _. discriminate.
  - injection H as -> H.
    apply andb_true_iff in Ha, Hb. f_equal. apply (IH b); tauto.
Qed.

(** What [f"{n:06d}"] prints for [n >= 0] reads back as [n], and holds no
    underscore. *)
Lemma format_06d_reads_back (n : Z) :
  0 <= n ->
  digits_value (Py.format_06d n) = Some (Z.to_N n) /\
  no_underscore (Py.format_06d n) = true.
Proof.
  intros Hn. unfold Py.format_06d.
  rewrite (proj2 (Z.ltb_ge n 0) Hn), Z.abs_eq by exact Hn.
  cbn [String.append String.length].
  assert (H : digits_value
                (Py.zeros (6 - 0 - String.length
                             (NilZero.string_of_uint (N.to_uint (Z.to_N n))))
                 ++ NilZero.string_of_uint (N.to_uint (Z.to_N n)))
              = Some (Z.to_N n)).
  { rewrite digits_value_zeros. apply digits_value_str. }
  split; [exact H|].
  unfold digits_value in H.
  destruct (NilEmpty.uint_of_string _) as [d|] eqn:E; [|discriminate].
  exact (digits_have_no_underscore _ d E).
Qed.

Lemma frame_filename_counter (c c' : Z) (t t' : Q) :
  0 <= c -> 0 <= c' ->
  frame_filename c t = frame_filename c' t' -> c = c'.
Proof.
  intros Hc Hc' H. unfold frame_filename in H.
  apply (append_cancel_l "frame_") in H.
  destruct (format_06d_reads_back c Hc) as [Hv Hu].
  destruct (format_06d_reads_back c' Hc') as [Hv' Hu'].
  assert (E : Py.format_06d c = Py.format_06d c').
  { apply (split_at_underscore _ _ _ _ Hu Hu' H). }
  rewrite E, Hv' in Hv. injection Hv as Hv. lia.
Qed.

Lemma path_of_counter (self : FrameExtractorThread) (c c' : Z) (t t' : Q) :
  0 <= c -> 0 <= c' ->
  path_of self c t = path_of self c' t' -> c = c'.
Proof.
  intros Hc Hc'. unfold path_of, Py.os_path_join.
  assert (Hs : forall k u, Py.starts_with_sep (frame_filename k u) = false)
    by reflexivity.
  rewrite !Hs.
  destruct (_ || _); intros H; apply append_cancel_l in H.
  - exact (frame_filename_counter c c' t t' Hc Hc' H).
  - apply (append_cancel_l "/") in H.
    exact (frame_filename_counter c c' t t' Hc Hc' H).
Qed.

Lemma paths_from_In (self : FrameExtractorThread) (c : Z) (ts : list Q) (p : string) :
  In p (paths_from self c ts) ->
  exists k t, c <= k /\ p = path_of self k t.
Proof.
  revert c. induction ts as [|t ts IH]; intros c Hin; [destruct Hin|].
  destruct Hin as [<-|Hin].
  - exists c, t. split; [lia | reflexivity].
  - destruct (IH _ Hin) as (k & u & Hk & ->). exists k, u. split; [lia | reflexivity].
Qed.

Lemma paths_from_NoDup (self : FrameExtractorThread) (c : Z) (ts : list Q) :
  0 <= c -> NoDup (paths_from self c ts).
Proof.
  revert c. induction ts as [|t ts IH]; intros c Hc; [constructor|].
  cbn [paths_from]. constructor; [|apply IH; lia].
  intros Hin. destruct (paths_from_In self _ _ _ Hin) as (k & u & Hk & E).
  apply path_of_counter in E; lia.
Qed.

(** X19.  No two files of a run collide: the paths handed to
    [cv2.imwrite] during a run are pairwise distinct, so no extracted frame
    overwrites another one of the same run.  More generally, two paths
    built from different counters differ, whatever the timestamps. *)
Theorem written_paths_never_collide :
  forall (world : World) (self : FrameExtractorThread),
    NoDup (attempted_paths (fst (run world self))) /\
    forall c c' t t',
      0 <= c -> 0 <= c' -> c <> c' -> path_of self c t <> path_of self c' t'.
Proof.
  intros world self. split.
  - destruct (while_loop_counter world self (iterations world self) 0%Q 0 (Qle_refl 0))
      as (ts & Hp & _ & _).
    destruct (run_log_cases world self) as [[msg E]|(log & last & E & -> & Hlast)];
      rewrite E.
    + constructor.
    + cbn [attempted_paths flat_map app].
      fold (attempted_paths
              (fst (while_loop world self (iterations world self) 0%Q 0) ++ last)).
      rewrite attempted_paths_app, Hp.
      assert (Hl : attempted_paths last = []).
      { destruct Hlast as [(c & _ & ->)|(msg & ->)]; reflexivity. }
      rewrite Hl, app_nil_r. apply paths_from_NoDup. lia.
  - intros c c' t t' Hc Hc' Hne H. apply Hne.
    exact (path_of_counter self c c' t t' Hc Hc' H).
Qed.

Lemma written_paths_never_collide_witness :
  path_of (Sample.job 1 1 None) 0 0 <> path_of (Sample.job 1 1 None) 1 0.
Proof.
  apply (proj2 (written_paths_never_collide (Sample.disk Sample.short)
                  (Sample.job 1 1 None))); lia.
Defined.

(** * The window during a job *)

Lemma loop_progress_range (world : World) (self : FrameExtractorThread) :
  Forall (fun p => 0 <= p <= 99)
    (progress_values (fst (while_loop world self (iterations world self) 0%Q 0))).
Proof.
  destruct (while_loop_progress world self (iterations world self) 0%Q 0 (Qle_refl 0))
    as (_ & _ & counts & ->).
  apply Forall_forall. intros p Hp.
  apply in_flat_map in Hp. destruct Hp as ([[t idxs] k] & Hwk & Hp).
  cbn [fst snd] in Hp. apply repeat_spec in Hp. subst p.
  apply in_combine_l in Hwk.
  destruct (windows_In world self _ _ _ _ (Qle_refl 0) Hwk) as (Ht & Hlt & _).
  apply progress_percent_below_100; assumption.
Qed.

(** The signals of a run: progress values below 100, then the terminal
    signal, which is the completed event exactly when the log holds
    one. *)
Lemma run_signals_shape (world : World) (self : FrameExtractorThread) :
  exists ps terminal,
    signals (fst (run world self)) = map E_progress ps ++ [terminal] /\
    Forall (fun p => 0 <= p <= 99) ps /\
    ((exists n, terminal = E_finished n /\ In (E_finished n) (fst (run world self))) \/
     (exists msg, terminal = E_error msg /\
                  forall n, ~ In (E_finished n) (fst (run world self)))).
Proof.
  pose proof (while_loop_log world self (iterations world self) 0%Q 0 (Qle_refl 0))
    as Hlog.
  pose proof (loop_progress_range world self) as Hrange.
  assert (Hnot : forall n, ~ In (E_finished n)
                   (fst (while_loop world self (iterations world self) 0%Q 0))).
  { intros n H. unfold loop_log in Hlog. rewrite Forall_forall in Hlog.
    destruct (Hlog _ H) as [t Ht]. exact Ht. }
  destruct (run_log_cases world self) as [[msg E]|(log & last & E & -> & Hlast)];
    rewrite E.
  - exists [], (E_error msg). split; [reflexivity|]. split; [constructor|].
    right. exists msg. split; [reflexivity|]. intros n [H|[]]. discriminate.
  - exists (progress_values (fst (while_loop world self (iterations world self) 0%Q 0))).
    change (E_makedirs (output_dir self)
              :: fst (while_loop world self (iterations world self) 0%Q 0) ++ last)
      with ([E_makedirs (output_dir self)]
              ++ fst (while_loop world self (iterations world self) 0%Q 0) ++ last).
    rewrite !signals_app, (loop_log_signals world self _ Hlog).
    destruct Hlast as [(c & _ & ->)|(msg & ->)].
    + exists (E_finished c). split; [reflexivity|]. split; [exact Hrange|].
      left. exists c. split; [reflexivity|].
      apply in_or_app. right. apply in_or_app. right. right. left. reflexivity.
    + exists (E_error msg). split; [reflexivity|]. split; [exact Hrange|].
      right. exists msg. split; [reflexivity|].
      intros n H. apply in_app_or in H. destruct H as [[H|[]]|H]; [discriminate|].
      apply in_app_or in H. destruct H as [H|[H|[]]]; [|discriminate].
      exact (Hnot n H).
Qed.

Lemma deliver_all_app (w : Window.VideoFrameExtractor) (l1 l2 : list effect) :
  Window.deliver_all w (l1 ++ l2)
  = let (w1, d1) := Window.deliver_all w l1 in
    let (w2, d2) := Window.deliver_all w1 l2 in
    (w2, d1 ++ d2).
Proof.
  revert w. induction l1 as [|e l1 IH]; intros w.
  - cbn. destruct (Window.deliver_all w l2). reflexivity.
  - cbn [app Window.deliver_all]. destruct (Window.deliver w e) as [w' d].
    rewrite IH. destruct (Window.deliver_all w' l1) as [w1 d1].
    destruct (Window.deliver_all w1 l2) as [w2 d2]. rewrite app_assoc. reflexivity.
Qed.

Lemma deliver_progress (ps : list Z) (w : Window.VideoFrameExtractor) :
  Forall (fun p => 0 <= p <= 99) ps ->
  0 <= Window.progress_bar w <= 99 ->
  snd (Window.deliver_all w (map E_progress ps)) = [] /\
  Window.extract_btn (fst (Window.deliver_all w (map E_progress ps)))
  = Window.extract_btn w /\
  0 <= Window.progress_bar (fst (Window.deliver_all w (map E_progress ps))) <= 99.
Proof.
  intros Hps. revert w. induction Hps as [|p ps Hp _ IH]; intros w Hw.
  - cbn. repeat split; lia.
  - cbn [map Window.deliver_all Window.deliver].
    assert (Hw' : 0 <= Window.progress_bar (Window.progress_bar_setValue p w) <= 99).
    { cbn. destruct (_ && _); lia. }
    destruct (IH _ Hw') as (H1 & H2 & H3).
    destruct (Window.deliver_all (Window.progress_bar_setValue p w) (map E_progress ps))
      as [w' d]. cbn [fst snd] in *. subst d. repeat split; try lia. exact H2.
Qed.

(** X20.  A started job locks the window and its signals unlock it: the
    extract button is disabled when the thread is started and enabled
    again once the signals of the run are handled, whatever the run did;
    exactly one message box is shown, and the progress bar ends at 100
    exactly when the run emitted the completed event. *)
Theorem job_signals_unlock_the_window :
  forall (world : World) (w w1 : Window.VideoFrameExtractor) (job : FrameExtractorThread),
    Window.extract_frames w = (w1, [], Some job) ->
    let result := Window.deliver_all w1 (signals (fst (run world job))) in
    Window.extract_btn w1 = false /\
    Window.extract_btn (fst result) = true /\
    (exists d, snd result = [d]) /\
    0 <= Window.progress_bar (fst result) <= 100 /\
    (Window.progress_bar (fst result) = 100 <->
     exists n, In (E_finished n) (fst (run world job))).
Proof.
  intros world w w1 job Hstart. cbv zeta.
  assert (Hw1 : Window.extract_btn w1 = false /\ Window.progress_bar w1 = 0).
  { unfold Window.extract_frames in Hstart.
    destruct (negb _); [discriminate|]. cbv zeta in Hstart.
    destruct (String.eqb _ _); [discriminate|].
    injection Hstart as <- _. split; reflexivity. }
  destruct Hw1 as [Hbtn Hbar]. split; [exact Hbtn|].
  destruct (run_signals_shape world job) as (ps & terminal & -> & Hps & Hterm).
  rewrite deliver_all_app.
  destruct (deliver_progress ps w1 Hps ltac:(lia)) as (Hd & _ & Hrange).
  destruct (Window.deliver_all w1 (map E_progress ps)) as [w2 d2].
  cbn [fst snd] in Hd, Hrange. subst d2.
  destruct Hterm as [(n & -> & Hin)|(msg & -> & Hnone)];
    cbn [Window.deliver_all Window.deliver Window.on_extraction_finished
         Window.on_extraction_error fst snd app].
  - split; [reflexivity|]. split; [eexists; reflexivity|].
    cbn. split; [lia|]. split; [intros _; exists n; exact Hin | reflexivity].
  - split; [reflexivity|]. split; [eexists; reflexivity|].
    cbn. split; [lia|]. split.
    + intros H. lia.
    + intros [n Hn]. exfalso. exact (Hnone n Hn).
Qed.

Lemma job_signals_unlock_the_window_witness :
  Window.extract_btn
    (fst (Window.deliver_all
            {| Window.video_path := Some "v.mp4"%string; Window.roi := None;
               Window.interval_spin := 1; Window.fps_spin := 1;
               Window.output_dir_edit := "out"; Window.extract_btn := false;
               Window.progress_bar := 0 |}
            (signals (fst (run (Sample.disk Sample.faulty) (Sample.job 1 1 None))))))
  = true.
Proof.
  exact (proj1 (proj2 (job_signals_unlock_the_window (Sample.disk Sample.faulty)
           {| Window.video_path := Some "v.mp4"%string; Window.roi := None;
              Window.interval_spin := 1; Window.fps_spin := 1;
              Window.output_dir_edit := "out"; Window.extract_btn := true;
              Window.progress_bar := 37 |}
           _ (Sample.job 1 1 None) eq_refl))).
Defined.

(** * No frame twice *)



Section NoFrameTwice.

Variable world : World.
Variable self : FrameExtractorThread.

(** Every window spans at least one frame. *)
Hypothesis window_holds_a_frame : (1 <= frame_interval world self * fps world self)%Q.



End NoFrameTwice.



(** Without that hypothesis a frame can be planned twice: at 1 fps an
    interval of half a second with density 2 plans frame 0 for the windows starting at 0
    and at 0.5. *)
Example short_windows_repeat_a_frame :
  map snd (sampling_plan (Sample.disk Sample.short) (Sample.job (1 # 2) 2 None))
  = [0; 0; 1; 1].
Proof. reflexivity. Qed.
